(** * Order creation and anonymous identity resolution of exury-backend

    A shallow embedding of
      - src/repositories/user.repository.ts  ([getOrCreateAnonymousUserId]),
      - the order-number migration (sequence, backfill, default),
      - src/controllers/order.controller.ts  ([createOrder], [getOrder],
        [getUserOrders]),
      - the error middleware of src/server.ts,
    and the properties of the order workflow established on it.

    Modelling conventions.
      - The database is a value of type [store]; a request served on its
        own sends one SQL statement after the other, each a transformation
        of the store.  Concurrent requests, also of different processes, are
        interleavings in which a statement reads the table as it was when
        the statement started and writes to the table as it is.
      - Everything a handler cannot control (whether a connection works, what
        the pricing service answers, which uuid is drawn) is an explicit
        input of type [env].
      - Handlers are written in a state-and-exception monad [M] over the
        process state [world], so that they read like the TypeScript. *)

From Stdlib Require Import ZArith QArith_base.
From stdpp Require Import base numbers list sorting strings gmap pretty.

Local Open Scope Z_scope.

(** ** JavaScript values *)

(** [if (s)] on a string: the empty string is falsy. *)
Definition truthy (s : string) : bool := negb (String.eqb s "").

(** [if (x)] on a value that is a string or undefined/null. *)
Definition truthy_opt (x : option string) : bool :=
  match x with
  | Some s => truthy s
  | None => false
  end.

(** What an awaited call produces: a value, or a thrown [Error] with its
    [message]. *)
Inductive outcome (A : Type) : Type :=
| Ok (a : A)
| Throw (message : string).
Arguments Ok {A} a.
Arguments Throw {A} message.

(** PostgreSQL puts the names in its messages between double quotes. *)
Definition quoted (name : string) : string :=
  String (Ascii.ascii_of_nat 34) (name ++ String (Ascii.ascii_of_nat 34) EmptyString).

(** ** Tables *)

Definition ANONYMOUS_EMAIL : string := "anonymous@exury.io".

Record user_row := UserRow {
  user_id : string;
  user_email : string;
}.

Inductive OrderStatus := QUOTE_LOCKED | DOWNSTREAM (name : string).

Module quote.
(** What [pricingService.getQuote] returns.  The numbers are only ever
    copied, so any type with equality represents them. *)
Record t := mk {
  base : string;
  asset : string;
  amount : Q;
  cryptoAmount : Q;
  exchangeRate : Q;
  fee : Q;
}.
End quote.

Module order.
Record t := mk {
  id : string;
  orderNumber : Z;
  userId : string;
  quoteId : string;
  type : string;
  base : string;
  asset : string;
  fiatAmount : Q;
  cryptoAmount : Q;
  exchangeRate : Q;
  fee : Q;
  status : OrderStatus;
  paymentId : option string;
  createdAt : Z;
  updatedAt : Z;
}.
End order.

(** The argument of [orderRepository.create]: every column but the ones the
    database fills in ([order_number], the timestamps, [payment_id]). *)
Module fields.
Record t := mk {
  id : string;
  userId : string;
  quoteId : string;
  type : string;
  base : string;
  asset : string;
  fiatAmount : Q;
  cryptoAmount : Q;
  exchangeRate : Q;
  fee : Q;
  status : OrderStatus;
}.
End fields.

(** The database: the users table (unique on [email], keyed by [id]), the
    orders table (keyed by [id], unique on [order_number]) and
    [order_number_seq], held as the value the next [nextval] returns. *)
Record store := Store {
  users : list user_row;
  orders : list order.t;
  order_number_seq : Z;
}.

Definition set_users (us : list user_row) (s : store) : store :=
  Store us (orders s) (order_number_seq s).

(** ** The statement of [getOrCreateAnonymousUserId]

<<
  WITH ins AS (
    INSERT INTO users (id, email) VALUES (gen_random_uuid(), $1)
    ON CONFLICT (email) DO NOTHING
    RETURNING id
  )
  SELECT id FROM ins
  UNION ALL
  SELECT id FROM users WHERE email = $1
  LIMIT 1
>> *)

(** [SELECT id FROM users WHERE email = $1] *)
Definition select_id_by_email (email : string) (us : list user_row) : list string :=
  user_id <$> filter (λ u, user_email u = email) us.

(** The CTE [ins]: the rows the insert returns and the table after it.  A row
    with this email suppresses the insert; a clash of the drawn [id] with the
    primary key is an error, [ON CONFLICT (email)] does not cover it. *)
Definition ins (fresh email : string) (us : list user_row)
  : outcome (list string * list user_row) :=
  if bool_decide (email ∈ user_email <$> us) then Ok ([], us)
  else if bool_decide (fresh ∈ user_id <$> us)
       then Throw ("duplicate key value violates unique constraint " ++ quoted "users_pkey")
       else Ok ([fresh], us ++ [UserRow fresh email]).

(** The whole statement, with [gen_random_uuid()] evaluating to [fresh].  The
    outer [SELECT] reads the table as it was when the statement started. *)
Definition anon_upsert (fresh : string) (s : store) : outcome (list string) * store :=
  match ins fresh ANONYMOUS_EMAIL (users s) with
  | Throw m => (Throw m, s)
  | Ok (returned, us') =>
      (Ok (take 1 (returned ++ select_id_by_email ANONYMOUS_EMAIL (users s))),
       set_users us' s)
  end.

(** The statement when other sessions write while it runs.  Under READ
    COMMITTED the whole statement, the CTE and the outer [SELECT], reads
    the [snapshot] taken when it started, while [ON CONFLICT] and the
    primary key are checked against the table as it is when the row is
    inserted: a row committed in between suppresses the insert and is not
    seen by the [SELECT].  [anon_upsert] is the statement with nothing in
    between. *)
Definition anon_upsert_on (snapshot : list user_row) (fresh : string) (s : store)
  : outcome (list string) * store :=
  match ins fresh ANONYMOUS_EMAIL (users s) with
  | Throw m => (Throw m, s)
  | Ok (returned, us') =>
      (Ok (take 1 (returned ++ select_id_by_email ANONYMOUS_EMAIL snapshot)),
       set_users us' s)
  end.

(** ** The process state and the handler monad *)

Record log_entry := LogError {
  log_message : string;
  log_error : string;
}.

(** [db]: the database.  [cachedAnonymousUserId]: the module-level variable
    of user.repository.ts.  [in_transaction]: whether the checked-out
    [client] is between [BEGIN] and [COMMIT]/[ROLLBACK].  [checked_out]:
    clients taken from the pool and not yet released.  [sent]: the
    statements handed to [pool.query], newest first.  [logged]: the calls of
    [logger.error], newest first. *)
Record world := World {
  db : store;
  cachedAnonymousUserId : option string;
  in_transaction : bool;
  checked_out : nat;
  sent : list string;
  logged : list log_entry;
}.

Definition set_db (s : store) (w : world) : world :=
  World s (cachedAnonymousUserId w) (in_transaction w) (checked_out w) (sent w) (logged w).
Definition set_cache (c : option string) (w : world) : world :=
  World (db w) c (in_transaction w) (checked_out w) (sent w) (logged w).
Definition set_in_transaction (b : bool) (w : world) : world :=
  World (db w) (cachedAnonymousUserId w) b (checked_out w) (sent w) (logged w).
Definition set_checked_out (n : nat) (w : world) : world :=
  World (db w) (cachedAnonymousUserId w) (in_transaction w) n (sent w) (logged w).
Definition add_sent (name : string) (w : world) : world :=
  World (db w) (cachedAnonymousUserId w) (in_transaction w) (checked_out w)
        (name :: sent w) (logged w).
Definition add_logged (l : log_entry) (w : world) : world :=
  World (db w) (cachedAnonymousUserId w) (in_transaction w) (checked_out w)
        (sent w) (l :: logged w).

(** An async function: it runs on the process state and resolves or
    rejects. *)
Definition M (A : Type) : Type := world → outcome A * world.

Definition ret {A} (a : A) : M A := λ w, (Ok a, w).
Definition throw {A} (message : string) : M A := λ w, (Throw message, w).
Definition bind {A B} (m : M A) (k : A → M B) : M B :=
  λ w, match m w with
       | (Ok a, w') => k a w'
       | (Throw e, w') => (Throw e, w')
       end.

#[global] Instance M_ret : MRet M := @ret.
#[global] Instance M_bind : MBind M := λ A B k m, bind m k.

(** [try { body } catch (error) { handler }] *)
Definition try_catch {A} (body : M A) (handler : string → M A) : M A :=
  λ w, match body w with
       | (Ok a, w') => (Ok a, w')
       | (Throw e, w') => handler e w'
       end.

(** [try { body } finally { cleanup }], for a cleanup that does not throw. *)
Definition try_finally {A} (body : M A) (cleanup : world → world) : M A :=
  λ w, let '(r, w') := body w in (r, cleanup w').

Definition logger_error (message error : string) : M () :=
  λ w, (Ok (), add_logged (LogError message error) w).

(** ** Talking to the database *)

(** What happens to one statement on its way: it runs and the answer comes
    back; it never reaches the database; or it runs and the answer is
    lost. *)
Inductive link :=
| Delivered
| Refused (message : string)
| ReplyLost (message : string).

(** [pool.query(sql)]: the statement runs on a pooled connection of its own,
    outside any transaction, so its effect is committed when it returns. *)
Definition pool_query {A} (name : string) (l : link)
    (stmt : store → outcome A * store) : M A :=
  λ w, let w := add_sent name w in
       match l with
       | Refused m => (Throw m, w)
       | Delivered => let '(r, s') := stmt (db w) in (r, set_db s' w)
       | ReplyLost m => let '(_, s') := stmt (db w) in (Throw m, set_db s' w)
       end.

(** ** src/repositories/user.repository.ts *)

Definition get_cachedAnonymousUserId : M (option string) :=
  λ w, (Ok (cachedAnonymousUserId w), w).
Definition assign_cachedAnonymousUserId (id : string) : M () :=
  λ w, (Ok (), set_cache (Some id) w).

(** [getOrCreateAnonymousUserId], over whatever [pool.query] does. *)
Definition getOrCreateAnonymousUserId_with (query : M (list string)) : M string :=
  cached ← get_cachedAnonymousUserId;
  if truthy_opt cached then ret (default "" cached)
  else
    try_catch
      (rows ← query;
       match rows with
       | [] => throw "Failed to get or create anonymous user"
       | id :: _ => assign_cachedAnonymousUserId id;; ret id
       end)
      (λ error,
        logger_error "getOrCreateAnonymousUserId failed" error;;
        throw error).

(** What one call meets: how the statement travels and what
    [gen_random_uuid()] draws. *)
Record query_env := QueryEnv {
  q_link : link;
  q_uuid : string;
}.

Definition anon_query (e : query_env) : M (list string) :=
  pool_query "anon_upsert" (q_link e) (anon_upsert (q_uuid e)).

Definition getOrCreateAnonymousUserId (e : query_env) : M string :=
  getOrCreateAnonymousUserId_with (anon_query e).

(** The query of a call whose statement started on [snapshot] and whose
    insert meets the table of the process state. *)
Definition anon_query_on (snapshot : list user_row) (e : query_env) : M (list string) :=
  pool_query "anon_upsert" (q_link e) (anon_upsert_on snapshot (q_uuid e)).

(** Successive calls within one process. *)
Fixpoint calls (es : list query_env) (w : world) : list (outcome string) * world :=
  match es with
  | [] => ([], w)
  | e :: es' =>
      let '(r, w1) := getOrCreateAnonymousUserId e w in
      let '(rs, w2) := calls es' w1 in
      (r :: rs, w2)
  end.

(** A process that has just started, on database [s]. *)
Definition boot (s : store) : world := World s None false 0 [] [].

Definition empty_store : store := Store [] [] 1.

(** ** Concurrent callers of [getOrCreateAnonymousUserId]

    A call runs in pieces, between which other callers and other processes
    run: from the call to the [await] (the cache is read and the statement
    handed to the pool), the statement inside the database, and from the
    [await] to the [return] (the cache is written).  The statement itself
    has a start, at which the database fixes the snapshot it reads, and an
    end, at which its insert meets the table as it then is and commits. *)
Module Concurrent.

Inductive phase :=
| Called
| Awaiting
| Running (snapshot : list user_row)
| Replied (r : outcome (list string))
| Returned (r : outcome string).

(** A caller, and the process (the module instance, with its own
    [cachedAnonymousUserId]) it runs in. *)
Record caller := Caller {
  process : nat;
  at_phase : phase;
}.

Record config := Config {
  database : store;
  caches : gmap nat string;
  callers : list caller;
}.

(** [Begin t]: the statement of caller [t] starts.  [Exec t e]: it ends;
    for a statement that has not started yet, it starts and ends with
    nothing in between. *)
Inductive event :=
| Enter (t : nat)
| Begin (t : nat)
| Exec (t : nat) (e : query_env)
| Resume (t : nat).

(** [if (cachedAnonymousUserId) return cachedAnonymousUserId;] and
    otherwise up to the [await]. *)
Definition enter (cache : option string) : phase :=
  if truthy_opt cache then Returned (Ok (default "" cache)) else Awaiting.

(** The statement that started on [snapshot], as [pool_query] runs it. *)
Definition exec (snapshot : list user_row) (e : query_env) (s : store)
  : outcome (list string) * store :=
  match q_link e with
  | Refused m => (Throw m, s)
  | Delivered => anon_upsert_on snapshot (q_uuid e) s
  | ReplyLost m => (Throw m, (anon_upsert_on snapshot (q_uuid e) s).2)
  end.

(** From the [await] to the [return]: the result and the id to cache. *)
Definition resume (r : outcome (list string)) : outcome string * option string :=
  match r with
  | Throw m => (Throw m, None)
  | Ok [] => (Throw "Failed to get or create anonymous user", None)
  | Ok (id :: _) => (Ok id, Some id)
  end.

Definition set_phase (t : nat) (c : caller) (p : phase) (cs : list caller) : list caller :=
  <[t := Caller (process c) p]> cs.

(** One event; an event that is not enabled leaves the configuration as
    it is. *)
Definition step (ev : event) (c : config) : config :=
  match ev with
  | Enter t =>
      match callers c !! t with
      | Some (Caller p Called as th) =>
          Config (database c) (caches c)
                 (set_phase t th (enter (caches c !! p)) (callers c))
      | _ => c
      end
  | Begin t =>
      match callers c !! t with
      | Some (Caller p Awaiting as th) =>
          Config (database c) (caches c)
                 (set_phase t th (Running (users (database c))) (callers c))
      | _ => c
      end
  | Exec t e =>
      match callers c !! t with
      | Some (Caller p Awaiting as th) =>
          let '(r, s') := exec (users (database c)) e (database c) in
          Config s' (caches c) (set_phase t th (Replied r) (callers c))
      | Some (Caller p (Running snapshot) as th) =>
          let '(r, s') := exec snapshot e (database c) in
          Config s' (caches c) (set_phase t th (Replied r) (callers c))
      | _ => c
      end
  | Resume t =>
      match callers c !! t with
      | Some (Caller p (Replied r) as th) =>
          let '(res, assigned) := resume r in
          Config (database c)
                 (match assigned with
                  | Some id => <[p := id]> (caches c)
                  | None => caches c
                  end)
                 (set_phase t th (Returned res) (callers c))
      | _ => c
      end
  end.

Fixpoint run (evs : list event) (c : config) : config :=
  match evs with
  | [] => c
  | ev :: evs' => run evs' (step ev c)
  end.

(** Callers in the given processes, none of which has resolved the
    anonymous identity yet. *)
Definition init (s : store) (processes : list nat) : config :=
  Config s ∅ ((λ p, Caller p Called) <$> processes).

Definition returned (c : caller) : bool :=
  match at_phase c with
  | Returned _ => true
  | _ => false
  end.

(** The statement of an [Exec] reaches the database and the uuid it
    draws is not taken; and no statement is started ahead of its end, so
    that no two statements overlap. *)
Definition healthy (s : store) (ev : event) : Prop :=
  match ev with
  | Exec _ e => q_link e = Delivered ∧ q_uuid e ∉ user_id <$> users s
  | Begin _ => False
  | _ => True
  end.

(** The invariant of a run without overlap that starts without an
    anonymous row.
    Before any statement has run nothing has been answered or cached;
    afterwards there is one anonymous row, and every answer, every result
    and every cache holds its id. *)
Definition unsettled (p : phase) : Prop := p = Called ∨ p = Awaiting.

Definition settled (id : string) (p : phase) : Prop :=
  match p with
  | Called | Awaiting => True
  | Running _ => False
  | Replied r => r = Ok [id]
  | Returned r => r = Ok id
  end.

Inductive inv (s0 : store) (c : config) : Prop :=
| inv_before :
    database c = s0 →
    caches c = ∅ →
    Forall (λ th, unsettled (at_phase th)) (callers c) →
    inv s0 c
| inv_after (id : string) :
    database c = set_users (users s0 ++ [UserRow id ANONYMOUS_EMAIL]) s0 →
    (∀ p x, caches c !! p = Some x → x = id) →
    Forall (λ th, settled id (at_phase th)) (callers c) →
    inv s0 c.

(** Two callers whose statements both start before either ends. *)
Definition overlapping (a b : string) : list event :=
  [Enter 0; Enter 1; Begin 0; Begin 1;
   Exec 0 (QueryEnv Delivered a); Exec 1 (QueryEnv Delivered b);
   Resume 0; Resume 1].

End Concurrent.

(** ** The order-number migration

<<
  CREATE SEQUENCE IF NOT EXISTS order_number_seq;
  ALTER TABLE orders ADD COLUMN IF NOT EXISTS order_number INTEGER;
  WITH numbered AS (
    SELECT id, nextval('order_number_seq') AS n FROM orders WHERE order_number IS NULL
  )
  UPDATE orders SET order_number = numbered.n FROM numbered WHERE orders.id = numbered.id;
  ALTER TABLE orders ALTER COLUMN order_number SET NOT NULL;
  CREATE UNIQUE INDEX IF NOT EXISTS orders_order_number_idx ON orders(order_number);
  ALTER TABLE orders ALTER COLUMN order_number SET DEFAULT nextval('order_number_seq');
>> *)

(** The range of an [INTEGER] column. *)
Definition INT_MIN : Z := -2147483648.
Definition INT_MAX : Z := 2147483647.
Definition in_integer_range (n : Z) : bool := (INT_MIN <=? n) && (n <=? INT_MAX).

Module Migration.

(** A row of the orders table while it is migrated; of its columns only
    the key and the order number matter here. *)
Record row := Row {
  row_id : string;
  order_number : option Z;
}.

(** The orders table and what the migration declares around it.
    [sequence]: the next value of [order_number_seq], once it exists. *)
Record schema := Schema {
  sequence : option Z;
  has_column : bool;
  not_null : bool;
  unique_index : bool;
  default_nextval : bool;
  rows : list row;
}.

Inductive statement :=
| CREATE_SEQUENCE
| ADD_COLUMN
| BACKFILL
| SET_NOT_NULL
| CREATE_UNIQUE_INDEX
| SET_DEFAULT.

(** The statements of the file, in the order of the file. *)
Definition migration : list statement :=
  [CREATE_SEQUENCE; ADD_COLUMN; BACKFILL; SET_NOT_NULL; CREATE_UNIQUE_INDEX; SET_DEFAULT].

(** The CTE [numbered]: one [nextval] for each row without a number, in
    the order the rows are scanned; and the sequence afterwards. *)
Fixpoint numbered (rs : list row) (next : Z) : list (string * Z) * Z :=
  match rs with
  | [] => ([], next)
  | r :: rs' =>
      match order_number r with
      | None =>
          let '(l, next') := numbered rs' (next + 1) in
          ((row_id r, next) :: l, next')
      | Some _ => numbered rs' next
      end
  end.

(** [UPDATE orders SET order_number = numbered.n FROM numbered
     WHERE orders.id = numbered.id] *)
Definition update_from (l : list (string * Z)) (rs : list row) : list row :=
  (λ r, match list_find (λ p, p.1 = row_id r) l with
        | Some (_, (_, n)) => Row (row_id r) (Some n)
        | None => r
        end) <$> rs.

Definition numbers (rs : list row) : list Z := omap order_number rs.

(** The message of an [ALTER COLUMN] on a column that is not there. *)
Definition no_column : string :=
  "column " ++ quoted "order_number" ++ " of relation " ++ quoted "orders"
  ++ " does not exist".

Definition exec (st : statement) (d : schema) : outcome schema :=
  match st with
  | CREATE_SEQUENCE =>
      Ok (Schema (Some (default 1 (sequence d))) (has_column d) (not_null d)
                 (unique_index d) (default_nextval d) (rows d))
  | ADD_COLUMN =>
      if has_column d then Ok d
      else Ok (Schema (sequence d) true (not_null d) (unique_index d) (default_nextval d)
                      ((λ r, Row (row_id r) None) <$> rows d))
  | BACKFILL =>
      match sequence d with
      | None => Throw ("relation " ++ quoted "order_number_seq" ++ " does not exist")
      | Some next =>
          if negb (has_column d)
          then Throw ("column " ++ quoted "order_number" ++ " does not exist")
          else
            let '(l, next') := numbered (rows d) next in
            let rs' := update_from l (rows d) in
            if negb (forallb in_integer_range (l.*2)) then Throw "integer out of range"
            else if unique_index d && negb (bool_decide (NoDup (numbers rs')))
                 then Throw ("duplicate key value violates unique constraint "
                             ++ quoted "orders_order_number_idx")
                 else Ok (Schema (Some next') true (not_null d) (unique_index d)
                                 (default_nextval d) rs')
      end
  | SET_NOT_NULL =>
      if negb (has_column d) then Throw no_column
      else if bool_decide (None ∈ order_number <$> rows d)
           then Throw ("column " ++ quoted "order_number" ++ " of relation "
                       ++ quoted "orders" ++ " contains null values")
           else Ok (Schema (sequence d) true true (unique_index d) (default_nextval d) (rows d))
  | CREATE_UNIQUE_INDEX =>
      if negb (has_column d)
      then Throw ("column " ++ quoted "order_number" ++ " does not exist")
      else if unique_index d then Ok d
      else if bool_decide (NoDup (numbers (rows d)))
           then Ok (Schema (sequence d) true (not_null d) true (default_nextval d) (rows d))
           else Throw ("could not create unique index " ++ quoted "orders_order_number_idx")
  | SET_DEFAULT =>
      if negb (has_column d) then Throw no_column
      else match sequence d with
           | None => Throw ("relation " ++ quoted "order_number_seq" ++ " does not exist")
           | Some _ => Ok (Schema (sequence d) true (not_null d) (unique_index d) true (rows d))
           end
  end.

Fixpoint exec_all (sts : list statement) (d : schema) : outcome schema :=
  match sts with
  | [] => Ok d
  | st :: sts' =>
      match exec st d with
      | Ok d' => exec_all sts' d'
      | Throw m => Throw m
      end
  end.

(** An orders table from before the migration, with the rows of the given
    keys: no column, no constraint, no default; [seq0] is the sequence if
    one of that name happens to exist. *)
Definition legacy (seq0 : option Z) (ids : list string) : schema :=
  Schema seq0 false false false false ((λ i, Row i None) <$> ids).

(** The rows of the given keys, numbered in order from [next]. *)
Fixpoint number_from (ids : list string) (next : Z) : list row :=
  match ids with
  | [] => []
  | i :: ids' => Row i (Some next) :: number_from ids' (next + 1)
  end.

Definition set_sequence (n : Z) (d : schema) : schema :=
  Schema (Some n) (has_column d) (not_null d) (unique_index d) (default_nextval d) (rows d).
Definition add_row (r : row) (d : schema) : schema :=
  Schema (sequence d) (has_column d) (not_null d) (unique_index d) (default_nextval d)
         (rows d ++ [r]).

(** The constraints a new row [Row id v] meets, in a table [d]. *)
Definition checked_insert (id : string) (v : option Z) (d : schema) : outcome (option Z) * schema :=
  if negb (from_option in_integer_range true v) then (Throw "integer out of range", d)
  else if not_null d && from_option (λ _, false) true v
  then (Throw ("null value in column " ++ quoted "order_number" ++ " of relation "
               ++ quoted "orders" ++ " violates not-null constraint"), d)
  else if bool_decide (id ∈ row_id <$> rows d)
  then (Throw ("duplicate key value violates unique constraint " ++ quoted "orders_pkey"), d)
  else if unique_index d && from_option (λ n, bool_decide (n ∈ numbers (rows d))) false v
  then (Throw ("duplicate key value violates unique constraint "
               ++ quoted "orders_order_number_idx"), d)
  else (Ok v, add_row (Row id v) d).

(** [INSERT INTO orders (id, ...) VALUES (...)] with no value for
    [order_number], under the schema as it stands: the number the new
    order gets, when the insert goes through.  The default is evaluated
    before the constraints are checked, and a value drawn from the sequence
    stays drawn when the insert fails. *)
Definition insert (id : string) (d : schema) : outcome (option Z) * schema :=
  if default_nextval d then
    match sequence d with
    | None => (Throw ("relation " ++ quoted "order_number_seq" ++ " does not exist"), d)
    | Some n => checked_insert id (Some n) (set_sequence (n + 1) d)
    end
  else checked_insert id None d.

(** A run of inserts and the numbers of those that went through. *)
Fixpoint inserts (ids : list string) (d : schema) : list Z * schema :=
  match ids with
  | [] => ([], d)
  | i :: ids' =>
      let '(r, d1) := insert i d in
      let '(ns, d2) := inserts ids' d1 in
      (match r with Ok (Some n) => n :: ns | _ => ns end, d2)
  end.

End Migration.

(** ** The order store *)

Definition nextval (s : store) : Z * store :=
  (order_number_seq s, Store (users s) (orders s) (order_number_seq s + 1)).

Definition add_order (o : order.t) (s : store) : store :=
  Store (users s) (orders s ++ [o]) (order_number_seq s).

(** Modelled from the spec: src/repositories/order.repository.ts is missing;
    this is the insert of [orderRepository.create].  Section 4.2: it assigns
    "the next value of a single shared monotonic counter as orderNumber" and
    inserts "the full order row", all or nothing, and "gaps after a
    rolled-back attempt are tolerable".  The counter is the migration's
    [DEFAULT nextval('order_number_seq')] on an [INTEGER] column with a
    unique index, the table is keyed by [id] (section 6), and the new order
    has no payment reference yet (section 3).  [now] is the time the
    database stamps on the row. *)
Definition insert_order (now : Z) (f : fields.t) (s : store) : outcome order.t * store :=
  let '(n, s1) := nextval s in
  if negb (in_integer_range n) then (Throw "integer out of range", s1)
  else if bool_decide (fields.id f ∈ order.id <$> orders s)
  then (Throw ("duplicate key value violates unique constraint " ++ quoted "orders_pkey"), s1)
  else if bool_decide (n ∈ order.orderNumber <$> orders s)
  then (Throw ("duplicate key value violates unique constraint "
               ++ quoted "orders_order_number_idx"), s1)
  else
    let o := order.mk (fields.id f) n (fields.userId f) (fields.quoteId f) (fields.type f)
                      (fields.base f) (fields.asset f) (fields.fiatAmount f)
                      (fields.cryptoAmount f) (fields.exchangeRate f) (fields.fee f)
                      (fields.status f) None now now in
    (Ok o, add_order o s1).
Arguments insert_order : simpl never.

(** Modelled from the spec: the query of [orderRepository.findById]
    (section 4.2, [findById(id) -> Order|absent]). *)
Definition select_order_by_id (id : string) (s : store) : outcome (option order.t) * store :=
  (Ok (head (filter (λ o, order.id o = id) (orders s))), s).

Definition newer_first (a b : order.t) : Prop := order.createdAt b ≤ order.createdAt a.
#[global] Instance newer_first_dec a b : Decision (newer_first a b) :=
  Z_le_dec (order.createdAt b) (order.createdAt a).

(** Modelled from the spec: the query of [orderRepository.findByUserId]
    (section 4.2: "reverse chronological, stable"). *)
Definition select_orders_by_user (userId : string) (s : store) : outcome (list order.t) * store :=
  (Ok (merge_sort newer_first (filter (λ o, order.userId o = userId) (orders s))), s).

(** *** Creation attempts, as the database sees them

    The inserts that reach the database, of whatever request handler,
    connection or process, in the order in which it runs them.  Each either
    commits its row or is rolled back; the value it drew from the sequence
    stays drawn. *)
Inductive fate :=
| Committed (o : order.t)
| RolledBack (drawn : Z) (message : string).

Definition create_one (a : Z * fields.t) (s : store) : fate * store :=
  match insert_order a.1 a.2 s with
  | (Ok o, s') => (Committed o, s')
  | (Throw m, s') => (RolledBack (order_number_seq s) m, s')
  end.

Fixpoint create_all (attempts : list (Z * fields.t)) (s : store) : list fate * store :=
  match attempts with
  | [] => ([], s)
  | a :: attempts' =>
      let '(f, s1) := create_one a s in
      let '(fs, s2) := create_all attempts' s1 in
      (f :: fs, s2)
  end.

(** The orders created, in creation order. *)
Definition committed (fs : list fate) : list order.t :=
  omap (λ f, match f with Committed o => Some o | RolledBack _ _ => None end) fs.

Definition order_numbers (os : list order.t) : list Z := order.orderNumber <$> os.

(** ** src/controllers/order.controller.ts *)

(** What a handler reads of the request: [req.user?.id], [req.body.quote_id]
    and [req.params.id]; an absent one is [None]. *)
Record request := Request {
  user : option string;
  quote_id : option string;
  params_id : string;
}.

(** What one request meets outside the handler.  [connect],
    [begin_throws], [commit_throws], [rollback_throws]: the message of the
    error, when the call throws.  [validateQuote], [getQuote]: the answers
    of the pricing service.  [uuidv4]: the id drawn for the order. *)
Record env := Env {
  connect : option string;
  anon : query_env;
  validateQuote : outcome bool;
  getQuote : outcome (option quote.t);
  begin_throws : option string;
  uuidv4 : string;
  create_link : link;
  now : Z;
  commit_throws : option string;
  rollback_throws : option string;
  find_link : link;
  NODE_ENV : option string;
}.

(** The projection [getOrder] answers with. *)
Record order_view := OrderView {
  v_id : string;
  v_order_id : string;
  v_order_number : Z;
  v_quote_id : string;
  v_type : string;
  v_base : string;
  v_asset : string;
  v_fiat_amount : Q;
  v_amount : Q;
  v_crypto_amount : Q;
  v_exchange_rate : Q;
  v_fee : Q;
  v_status : OrderStatus;
  v_reference : string;
  v_iban : option string;
  v_payment_id : option string;
  v_created_at : Z;
  v_updated_at : Z;
}.

(** The JSON bodies of the handlers.  In [error_body] a [message] that is
    [undefined] is [None]. *)
Inductive json :=
| error_body (error : string) (message : option string)
| created_body (id order_id : string) (order_number : Z) (reference : string)
               (status : OrderStatus)
| order_body (v : order_view)
| orders_body (orders : list order.t).

Record response := Response {
  status : nat;
  body : json;
}.

(** What becomes of a request: the handler's promise resolves after it sent
    a response ([Ok]), or it rejects with nothing sent ([Throw]). *)
Definition handler := M response.

Inductive tx_command := BEGIN | COMMIT | ROLLBACK.

(** [pool.connect()] and [client.release()]. *)
Definition pool_connect (e : env) : M () :=
  λ w, match connect e with
       | Some m => (Throw m, w)
       | None => (Ok (), set_checked_out (S (checked_out w)) w)
       end.
Definition client_release (w : world) : world :=
  set_checked_out (pred (checked_out w)) w.

(** [client.query('BEGIN' | 'COMMIT' | 'ROLLBACK')].  These three are the
    only statements the controller sends on [client]; the transaction they
    bracket holds no statement, so ending it either way leaves the tables as
    they are. *)
Definition client_query (c : tx_command) (throws : option string) : M () :=
  λ w, match throws with
       | Some m => (Throw m, w)
       | None => (Ok (), set_in_transaction (match c with BEGIN => true | _ => false end) w)
       end.

(** [pricingService.validateQuote] and [pricingService.getQuote], which
    answer from outside the process. *)
Definition pricing_validateQuote (e : env) (quote_id : string) : M bool :=
  λ w, (validateQuote e, w).
Definition pricing_getQuote (e : env) (quote_id : string) : M (option quote.t) :=
  λ w, (getQuote e, w).

(** [orderRepository.create(fields)].  The call hands the repository no
    connection, and [client] is checked out of the pool, so the insert runs
    through [pool.query] like the statement of user.repository.ts. *)
Definition orderRepository_create (e : env) (f : fields.t) : M order.t :=
  pool_query "insert_order" (create_link e) (insert_order (now e) f).
Definition orderRepository_findById (e : env) (id : string) : M (option order.t) :=
  pool_query "select_order_by_id" (find_link e) (select_order_by_id id).
Definition orderRepository_findByUserId (e : env) (userId : string) : M (list order.t) :=
  pool_query "select_orders_by_user" (find_link e) (select_orders_by_user userId).

(** [(req as any).user?.id || (await getOrCreateAnonymousUserId())] *)
Definition resolve_userId (e : env) (req : request) : M string :=
  if truthy_opt (user req) then ret (default "" (user req))
  else getOrCreateAnonymousUserId (anon e).

Definition createOrder (e : env) (req : request) : handler :=
  pool_connect e;;
  try_finally
    (try_catch
       (userId ← resolve_userId e req;
        if negb (truthy_opt (quote_id req))
        then ret (Response 400 (error_body "quote_id is required" None))
        else
          let quote_id := default "" (quote_id req) in
          isValid ← pricing_validateQuote e quote_id;
          if negb isValid
          then ret (Response 410 (error_body "Quote has expired or is invalid" None))
          else
            quote ← pricing_getQuote e quote_id;
            match quote with
            | None => ret (Response 404 (error_body "Quote not found" None))
            | Some quote =>
                client_query BEGIN (begin_throws e);;
                let orderId := uuidv4 e in
                order ← orderRepository_create e
                  (fields.mk orderId userId quote_id "buy"
                             (quote.base quote) (quote.asset quote) (quote.amount quote)
                             (quote.cryptoAmount quote) (quote.exchangeRate quote)
                             (quote.fee quote) QUOTE_LOCKED);
                client_query COMMIT (commit_throws e);;
                let orderNumber := order.orderNumber order in
                ret (Response 201
                       (created_body orderId orderId orderNumber (pretty orderNumber)
                                     QUOTE_LOCKED))
            end)
       (λ error,
         client_query ROLLBACK (rollback_throws e);;
         logger_error "Error creating order" error;;
         ret (Response 500 (error_body "Failed to create order" (Some error)))))
    client_release.

Definition getOrder (e : env) (req : request) : handler :=
  try_catch
    (let id := params_id req in
     userId ← resolve_userId e req;
     order ← orderRepository_findById e id;
     match order with
     | None => ret (Response 404 (error_body "Order not found" None))
     | Some order =>
         if negb (bool_decide (order.userId order = userId))
         then ret (Response 403 (error_body "Access denied" None))
         else
           let orderNumber := order.orderNumber order in
           ret (Response 200 (order_body
                  (OrderView (order.id order) (order.id order) orderNumber
                             (order.quoteId order) (order.type order) (order.base order)
                             (order.asset order) (order.fiatAmount order)
                             (order.fiatAmount order) (order.cryptoAmount order)
                             (order.exchangeRate order) (order.fee order)
                             (order.status order) (pretty orderNumber) None
                             (order.paymentId order) (order.createdAt order)
                             (order.updatedAt order))))
     end)
    (λ error,
      logger_error "Error getting order" error;;
      ret (Response 500 (error_body "Failed to get order" (Some error)))).

Definition getUserOrders (e : env) (req : request) : handler :=
  try_catch
    (userId ← resolve_userId e req;
     orders ← orderRepository_findByUserId e userId;
     ret (Response 200 (orders_body orders)))
    (λ error,
      logger_error "Error getting user orders" error;;
      ret (Response 500 (error_body "Failed to get orders" (Some error)))).

(** ** src/server.ts: the error handling middleware

    [message: process.env.NODE_ENV === 'development' ? err.message : undefined] *)
Definition error_middleware (e : env) (err_message : string) : response :=
  Response 500
    (error_body "Internal server error"
       (if bool_decide (NODE_ENV e = Some "development") then Some err_message else None)).

(** The [message] a response discloses, if any. *)
Definition disclosed (r : response) : option string :=
  match body r with
  | error_body _ m => m
  | _ => None
  end.

(** ** Vocabulary of the statements *)

Definition emails (s : store) : list string := user_email <$> users s.
Definition ids (s : store) : list string := user_id <$> users s.

(** Ids are uuids in text form, never the empty string. *)
Definition nonempty_ids (s : store) : Prop :=
  Forall (λ u, truthy (user_id u) = true) (users s).
Definition nonempty_uuids (es : list query_env) : Prop :=
  Forall (λ e, truthy (q_uuid e) = true) es.
Definition cache_ok (w : world) : Prop :=
  ∀ id, cachedAnonymousUserId w = Some id → truthy id = true.

(** The statement reaches the database and the uuid it draws is not
    taken. *)
Definition healthy (s : store) (e : query_env) : Prop :=
  q_link e = Delivered ∧ q_uuid e ∉ ids s.

Definition is_Ok {A} (r : outcome A) : bool :=
  match r with
  | Ok _ => true
  | Throw _ => false
  end.

(** ** Sample data

    The quote of the scenario of section 8, and requests and surroundings
    to run the handlers on. *)
Definition Q1 : quote.t := quote.mk "EUR" "BTC" 100 (2 # 1000) 50000 1.

Definition sample_fields (id : string) : fields.t :=
  fields.mk id "u-1" "q-1" "buy" "EUR" "BTC" 100 (2 # 1000) 50000 1 QUOTE_LOCKED.

(** A request whose surroundings all work: the quote is valid and is [Q1]. *)
Definition calm : env :=
  Env None (QueryEnv Delivered "anon-1") (Ok true) (Ok (Some Q1)) None "order-1"
      Delivered 1700000000 None None Delivered (Some "production").

Definition with_anon (q : query_env) (e : env) : env :=
  Env (connect e) q (validateQuote e) (getQuote e) (begin_throws e) (uuidv4 e)
      (create_link e) (now e) (commit_throws e) (rollback_throws e) (find_link e) (NODE_ENV e).
Definition with_validateQuote (v : outcome bool) (e : env) : env :=
  Env (connect e) (anon e) v (getQuote e) (begin_throws e) (uuidv4 e)
      (create_link e) (now e) (commit_throws e) (rollback_throws e) (find_link e) (NODE_ENV e).
Definition with_begin_throws (m : option string) (e : env) : env :=
  Env (connect e) (anon e) (validateQuote e) (getQuote e) m (uuidv4 e)
      (create_link e) (now e) (commit_throws e) (rollback_throws e) (find_link e) (NODE_ENV e).
Definition with_commit_throws (m : option string) (e : env) : env :=
  Env (connect e) (anon e) (validateQuote e) (getQuote e) (begin_throws e) (uuidv4 e)
      (create_link e) (now e) m (rollback_throws e) (find_link e) (NODE_ENV e).
Definition with_rollback_throws (m : option string) (e : env) : env :=
  Env (connect e) (anon e) (validateQuote e) (getQuote e) (begin_throws e) (uuidv4 e)
      (create_link e) (now e) (commit_throws e) m (find_link e) (NODE_ENV e).

(** A signed-in caller, and a caller without a session. *)
Definition alice_orders (q : option string) : request := Request (Some "alice") q "order-1".
Definition anonymous_orders (q : option string) : request := Request None q "order-1".

(** ** What a computation may do to the database

    [frames Rs m]: running [m] takes the database to one related to it by
    [Rs], whatever [m] returns. *)
Definition frames {A} (Rs : store → store → Prop) (m : M A) : Prop :=
  ∀ w, Rs (db w) (db (m w).2).

(** The orders and the counter are as they were. *)
Definition same_orders (s s' : store) : Prop :=
  orders s' = orders s ∧ order_number_seq s' = order_number_seq s.

(** Nothing at all was written. *)
Definition same_store (s s' : store) : Prop := s' = s.

(** The order of key [x], once it is [o], stays [o]. *)
Definition keeps_order (x : string) (o : order.t) (s s' : store) : Prop :=
  filter (λ o', order.id o' = x) (orders s) = [o] →
  filter (λ o', order.id o' = x) (orders s') = [o].

(** The handlers a process serves. *)
Inductive call :=
| CreateOrder (e : env) (req : request)
| GetOrder (e : env) (req : request)
| GetUserOrders (e : env) (req : request).

Definition serve (c : call) : handler :=
  match c with
  | CreateOrder e req => createOrder e req
  | GetOrder e req => getOrder e req
  | GetUserOrders e req => getUserOrders e req
  end.

(** Requests served one after the other; a handler that rejects leaves the
    state it reached. *)
Fixpoint serve_all (cs : list call) (w : world) : world :=
  match cs with
  | [] => w
  | c :: cs' => serve_all cs' (serve c w).2
  end.
Definition with_find_link (l : link) (e : env) : env :=
  Env (connect e) (anon e) (validateQuote e) (getQuote e) (begin_throws e) (uuidv4 e)
      (create_link e) (now e) (commit_throws e) (rollback_throws e) l (NODE_ENV e).

(** What a request that got an answer was answered, if it was. *)
Definition answer (r : outcome response * world) : option response :=
  match r.1 with
  | Ok resp => Some resp
  | Throw _ => None
  end.

(** The projection of an order that [getOrder] sends. *)
Definition view_of (o : order.t) : order_view :=
  OrderView (order.id o) (order.id o) (order.orderNumber o) (order.quoteId o) (order.type o)
            (order.base o) (order.asset o) (order.fiatAmount o) (order.fiatAmount o)
            (order.cryptoAmount o) (order.exchangeRate o) (order.fee o) (order.status o)
            (pretty (order.orderNumber o)) None (order.paymentId o) (order.createdAt o)
            (order.updatedAt o).


(** The order of key [x] in the table. *)
Definition order_by_id (x : string) (s : store) : option order.t :=
  head (filter (λ o, order.id o = x) (orders s)).

(** Later surroundings, in which the quote has expired and is gone, and the
    next order id is drawn. *)
Definition quote_gone : env :=
  Env None (QueryEnv Delivered "anon-2") (Ok false) (Ok None) None "order-2"
      Delivered 1700000600 None None Delivered (Some "production").
Definition other_quote : env :=
  Env None (QueryEnv Delivered "anon-2") (Ok true)
      (Ok (Some (quote.mk "USD" "ETH" 250 (1 # 10) 2500 3))) None "order-2"
      Delivered 1700000300 None None Delivered (Some "production").

(** The reading of "a request without [quote_id] is answered 400 and nothing
    is written". *)
Definition missing_quote_id_writes_nothing : Prop :=
  ∀ e req w,
    truthy_opt (quote_id req) = false → connect e = None →
    answer (createOrder e req w)
    = Some (Response 400 (error_body "quote_id is required" None))
    ∧ db (createOrder e req w).2 = db w.

(** The orders and the counter moved as by some inserts run by the
    database. *)
Definition attempted (s s' : store) : Prop :=
  ∃ attempts,
    orders s' = orders (create_all attempts s).2
    ∧ order_number_seq s' = order_number_seq (create_all attempts s).2.

(** ** What a computation may do to the process state

    [wframes R m]: running [m] takes the process state to one related to it
    by [R], whatever [m] returns. *)
Definition wframes {A} (R : world → world → Prop) (m : M A) : Prop :=
  ∀ w, R w (m w).2.

(** As many clients are checked out of the pool as before. *)
Definition same_checked_out (w w' : world) : Prop := checked_out w' = checked_out w.

(** An id held in [cachedAnonymousUserId] is still held. *)
Definition cache_kept (w w' : world) : Prop :=
  ∀ id, cachedAnonymousUserId w = Some id → truthy id = true →
        cachedAnonymousUserId w' = Some id.

(** The status codes of the answers. *)
Definition status_of (r : outcome response * world) : option nat :=
  status <$> answer r.

(** ** Concurrent callers when anything may fail

    The invariant of a run that starts without an anonymous row, with no
    assumption on the events.  Until a statement has inserted the row no
    caller has been given an id; afterwards the row is the one added to the
    table and every id given out or cached is its id.  A statement that has
    started reads the table as the run found it or, once the row is there,
    possibly the table with the row. *)
Definition undecided (p : Concurrent.phase) : Prop :=
  match p with
  | Concurrent.Replied (Ok _) | Concurrent.Returned (Ok _) => False
  | _ => True
  end.

Definition agrees (id : string) (p : Concurrent.phase) : Prop :=
  match p with
  | Concurrent.Replied (Ok rows) => rows = [] ∨ rows = [id]
  | Concurrent.Returned (Ok x) => x = id
  | _ => True
  end.

Definition started_on (s0 : store) (id : option string) (p : Concurrent.phase) : Prop :=
  match p with
  | Concurrent.Running snapshot =>
      snapshot = users s0
      ∨ from_option (λ i, snapshot = users s0 ++ [UserRow i ANONYMOUS_EMAIL]) False id
  | _ => True
  end.

Inductive tolerant_inv (s0 : store) (c : Concurrent.config) : Prop :=
| tolerant_before :
    Concurrent.database c = s0 →
    Concurrent.caches c = ∅ →
    Forall (λ th, undecided (Concurrent.at_phase th)) (Concurrent.callers c) →
    Forall (λ th, started_on s0 None (Concurrent.at_phase th)) (Concurrent.callers c) →
    tolerant_inv s0 c
| tolerant_after (id : string) :
    Concurrent.database c = set_users (users s0 ++ [UserRow id ANONYMOUS_EMAIL]) s0 →
    (∀ p x, Concurrent.caches c !! p = Some x → x = id) →
    Forall (λ th, agrees id (Concurrent.at_phase th)) (Concurrent.callers c) →
    Forall (λ th, started_on s0 (Some id) (Concurrent.at_phase th)) (Concurrent.callers c) →
    tolerant_inv s0 c.

(** ** Vocabulary for a table that is numbered in part *)

(** The rows with every missing number filled in, in order, from [next]. *)
Fixpoint fill (rs : list Migration.row) (next : Z) : list Migration.row :=
  match rs with
  | [] => []
  | r :: rs' =>
      match Migration.order_number r with
      | None => Migration.Row (Migration.row_id r) (Some next) :: fill rs' (next + 1)
      | Some _ => r :: fill rs' next
      end
  end.

(** How many rows have no number. *)
Fixpoint nulls (rs : list Migration.row) : nat :=
  match rs with
  | [] => 0
  | r :: rs' =>
      match Migration.order_number r with
      | None => S (nulls rs')
      | Some _ => nulls rs'
      end
  end.

(** ** src/server.ts: the origin check of the CORS middleware *)

(** [s.includes(sub)] *)
Definition includes (s sub : string) : bool :=
  match String.index 0 sub s with
  | Some _ => true
  | None => false
  end.

(** The [origin] function handed to [cors]; what it passes to [callback]:
    the error, if any, and whether the origin is allowed. *)
Definition cors_origin (origin : option string) : option string * bool :=
  if negb (truthy_opt origin) then (None, true)
  else
    let origin := default "" origin in
    if includes origin "exurydev--" && includes origin ".web.app" then (None, true)
    else if includes origin "exury.io" || includes origin "exurydev.web.app" then (None, true)
    else if includes origin "localhost" || includes origin "127.0.0.1" then (None, true)
    else (None, true).

(** ** The migration runners

    Three pieces of code run the numbered SQL files: [runMigrationsIfNeeded]
    of src/server.ts at startup, the Node script with [runMigrations], and
    scripts/run-migrations.sh.  What the files do to the database is not
    part of them; what they meet is an input. *)
Definition migrationFiles : list string :=
  ["001_initial_schema.sql"; "002_add_email_verification.sql";
   "003_add_apple_facebook_ids.sql"].

(** What a runner meets.  [table_check]: the answer of the [EXISTS] query on
    the users table.  [connection_test]: the message, when [SELECT NOW()]
    throws.  [existsSync]: whether a file is on disk.  [run_sql]: the
    message, when [pool.query] of a file's text throws.  [list_tables]: the
    final listing of the tables. *)
Record runner_env := RunnerEnv {
  table_check : outcome bool;
  connection_test : option string;
  existsSync : string → bool;
  run_sql : string → option string;
  list_tables : outcome (list string);
}.

(** The loop of [runMigrationsIfNeeded]: a file that is not on disk is passed
    over; the first query that throws ends the loop.  The files whose text
    was sent, and the error thrown. *)
Fixpoint startup_loop (e : runner_env) (files : list string) : list string * option string :=
  match files with
  | [] => ([], None)
  | file :: files' =>
      if existsSync e file then
        match run_sql e file with
        | Some m => ([file], Some m)
        | None => let '(ran, err) := startup_loop e files' in (file :: ran, err)
        end
      else startup_loop e files'
  end.

(** [runMigrationsIfNeeded]: the files whose text was sent to the database
    and the error that the [catch] printed, if any.  It never throws. *)
Definition runMigrationsIfNeeded (e : runner_env) : list string * option string :=
  match table_check e with
  | Throw m => ([], Some m)
  | Ok usersTableExists =>
      if usersTableExists then ([], None) else startup_loop e migrationFiles
  end.

(** How the Node script dealt with a file. *)
Inductive handled := Completed | AlreadyApplied.

(** The test of the inner [catch] of the Node script. *)
Definition already_applied (message : string) : bool :=
  includes message "already exists" || includes message "duplicate".

(** The loop of [runMigrations]: a missing file exits the process; an error
    that passes the test is passed over; any other error is thrown on.  The
    files dealt with, and whether the loop came to its end. *)
Fixpoint script_loop (e : runner_env) (files : list string) : list (string * handled) * bool :=
  match files with
  | [] => ([], true)
  | file :: files' =>
      if negb (existsSync e file) then ([], false)
      else
        match run_sql e file with
        | None =>
            let '(done, through) := script_loop e files' in ((file, Completed) :: done, through)
        | Some m =>
            if already_applied m
            then let '(done, through) := script_loop e files' in
                 ((file, AlreadyApplied) :: done, through)
            else ([], false)
        end
  end.

Record script_run := ScriptRun {
  exit_code : nat;
  dealt_with : list (string * handled);
  pool_ended : bool;
}.

(** The Node script, from the test of [DATABASE_URL] on.  [process.exit(1)]
    ends the process where it stands, so that the [finally] with
    [pool.end()] is reached on the way through only. *)
Definition runMigrations (DATABASE_URL : option string) (e : runner_env) : script_run :=
  if negb (truthy_opt DATABASE_URL) then ScriptRun 1 [] false
  else
    match connection_test e with
    | Some _ => ScriptRun 1 [] false
    | None =>
        let '(done, through) := script_loop e migrationFiles in
        if negb through then ScriptRun 1 done false
        else
          match list_tables e with
          | Throw _ => ScriptRun 1 done false
          | Ok _ => ScriptRun 0 done true
          end
    end.

(** scripts/run-migrations.sh.  [psql]: the exit status of [psql] on a file.
    The files [psql] was run on, and the exit status of the script. *)
Definition run_migrations_sh (DATABASE_URL : string) (psql : string → nat) : list string * nat :=
  if String.eqb DATABASE_URL "" then ([], 1%nat)
  else if negb (psql "migrations/001_initial_schema.sql" =? 0)%nat
  then (["migrations/001_initial_schema.sql"], 1%nat)
  else if negb (psql "migrations/002_add_email_verification.sql" =? 0)%nat
  then (["migrations/001_initial_schema.sql"; "migrations/002_add_email_verification.sql"],
        1%nat)
  else if negb (psql "migrations/003_add_apple_facebook_ids.sql" =? 0)%nat
  then (["migrations/001_initial_schema.sql"; "migrations/002_add_email_verification.sql";
         "migrations/003_add_apple_facebook_ids.sql"], 1%nat)
  else (["migrations/001_initial_schema.sql"; "migrations/002_add_email_verification.sql";
         "migrations/003_add_apple_facebook_ids.sql"], 0%nat).

(** What [psql URL -f file] meets: whether the connection is made, whether
    the file can be read, and whether a statement of the file raises an
    error. *)
Record psql_run := PsqlRun {
  connected : bool;
  readable : bool;
  sql_error : bool;
}.

(** The exit status of [psql], as its manual gives it: 2 when the connection
    is bad, 1 on a fatal error of its own such as a file it cannot read, 3
    when a statement of the script fails and [ON_ERROR_STOP] is set, and 0
    when it finished, also after statements that failed. *)
Definition psql_status (ON_ERROR_STOP : bool) (r : psql_run) : nat :=
  if negb (connected r) then 2%nat
  else if negb (readable r) then 1%nat
  else if sql_error r && ON_ERROR_STOP then 3%nat
  else 0%nat.

(** [psql "$DATABASE_URL" -f file], as the shell script calls it: no
    [ON_ERROR_STOP]. *)
Definition psql_f (meets : string → psql_run) (file : string) : nat :=
  psql_status false (meets file).

(** A file the runner can deal with: it is on disk, and running it either
    goes through or fails as something already applied. *)
Definition passable (e : runner_env) (file : string) : Prop :=
  existsSync e file = true
  ∧ ∀ m, run_sql e file = Some m → already_applied m = true.

(** The paths the shell script runs [psql] on, in its order. *)
Definition sh_files : list string :=
  ["migrations/001_initial_schema.sql"; "migrations/002_add_email_verification.sql";
   "migrations/003_add_apple_facebook_ids.sql"].

(** What the catch block of [createOrder] makes of an error caught in state
    [w], followed by the [finally]. *)
Definition createOrder_caught (e : env) (error : string) (w : world) : outcome response * world :=
  match rollback_throws e with
  | Some m => (Throw m, client_release w)
  | None =>
      (Ok (Response 500 (error_body "Failed to create order" (Some error))),
       client_release (add_logged (LogError "Error creating order" error)
                                  (set_in_transaction false w)))
  end.

(** * Properties *)

(** ** Sanity checks of the embedding on concrete runs *)

Example first_call_inserts :
  getOrCreateAnonymousUserId (QueryEnv Delivered "u-1") (boot empty_store)
  = (Ok "u-1",
     World (Store [UserRow "u-1" ANONYMOUS_EMAIL] [] 1) (Some "u-1") false 0
           ["anon_upsert"] []).
Proof. reflexivity. Qed.

Example second_call_is_cached :
  (calls [QueryEnv Delivered "u-1"; QueryEnv Delivered "u-2"] (boot empty_store)).1
  = [Ok "u-1"; Ok "u-1"].
Proof. reflexivity. Qed.

Example other_process_reads_back :
  getOrCreateAnonymousUserId (QueryEnv Delivered "u-2")
    (boot (Store [UserRow "u-1" ANONYMOUS_EMAIL] [] 1))
  = (Ok "u-1",
     World (Store [UserRow "u-1" ANONYMOUS_EMAIL] [] 1) (Some "u-1") false 0
           ["anon_upsert"] []).
Proof. reflexivity. Qed.

Example refused_call_is_not_cached :
  getOrCreateAnonymousUserId (QueryEnv (Refused "ECONNREFUSED") "u-1") (boot empty_store)
  = (Throw "ECONNREFUSED",
     World empty_store None false 0 ["anon_upsert"]
           [LogError "getOrCreateAnonymousUserId failed" "ECONNREFUSED"]).
Proof. reflexivity. Qed.

(** ** Anonymous identity resolution within one process *)

Ltac unfold_M :=
  unfold mbind, mret, M_bind, M_ret, bind, ret, throw, try_catch, try_finally,
    logger_error, get_cachedAnonymousUserId, assign_cachedAnonymousUserId in *.

Lemma resolve_cached (query : M (list string)) (w : world) (id : string) :
  cachedAnonymousUserId w = Some id → truthy id = true →
  getOrCreateAnonymousUserId_with query w = (Ok id, w).
Proof.
  intros Hc Ht. unfold getOrCreateAnonymousUserId_with. unfold_M.
  cbn. rewrite Hc. cbn. rewrite Ht. reflexivity.
Qed.

(** With nothing usable in the cache the call is its query followed by the
    three-way branch on what came back. *)
Lemma resolve_uncached (query : M (list string)) (w : world) :
  truthy_opt (cachedAnonymousUserId w) = false →
  getOrCreateAnonymousUserId_with query w =
  match query w with
  | (Ok [], w1) =>
      (Throw "Failed to get or create anonymous user",
       add_logged (LogError "getOrCreateAnonymousUserId failed"
                            "Failed to get or create anonymous user") w1)
  | (Ok (id :: _), w1) => (Ok id, set_cache (Some id) w1)
  | (Throw m, w1) =>
      (Throw m, add_logged (LogError "getOrCreateAnonymousUserId failed" m) w1)
  end.
Proof.
  intros Hc. unfold getOrCreateAnonymousUserId_with. unfold_M.
  cbn. rewrite Hc. destruct (query w) as [[[|id rows]|m] w1]; reflexivity.
Qed.






(** *** The statement on the users table *)

Lemma select_id_by_email_absent email us :
  email ∉ user_email <$> us → select_id_by_email email us = [].
Proof.
  unfold select_id_by_email. induction us as [|u us IH]; [reflexivity|].
  intros Hn. rewrite fmap_cons, not_elem_of_cons in Hn. destruct Hn as [Hne Hn].
  rewrite filter_cons. destruct (decide (user_email u = email)); [congruence|].
  by apply IH.
Qed.

Lemma select_id_by_email_present email us :
  email ∈ user_email <$> us →
  ∃ id ids, select_id_by_email email us = id :: ids ∧ id ∈ user_id <$> us.
Proof.
  unfold select_id_by_email. induction us as [|u us IH].
  - intros H. by apply elem_of_nil in H.
  - intros H. rewrite filter_cons. destruct (decide (user_email u = email)) as [He|He].
    + eexists _, _. split; [reflexivity|]. rewrite fmap_cons. apply list_elem_of_here.
    + rewrite fmap_cons, elem_of_cons in H. destruct H as [H|H]; [congruence|].
      destruct (IH H) as (id & ids & Hsel & Hin).
      exists id, ids. split; [exact Hsel|]. rewrite fmap_cons. by apply list_elem_of_further.
Qed.

(** What the statement does, by the three situations it can meet. *)
Lemma anon_upsert_spec fresh s :
  (ANONYMOUS_EMAIL ∈ emails s
   ∧ ∃ id, anon_upsert fresh s = (Ok [id], s) ∧ id ∈ (user_id <$> users s)
           ∧ head (select_id_by_email ANONYMOUS_EMAIL (users s)) = Some id)
  ∨ ((ANONYMOUS_EMAIL ∉ emails s) ∧ fresh ∈ (user_id <$> users s)
     ∧ ∃ m, anon_upsert fresh s = (Throw m, s))
  ∨ ((ANONYMOUS_EMAIL ∉ emails s) ∧ (fresh ∉ (user_id <$> users s))
     ∧ anon_upsert fresh s
       = (Ok [fresh], set_users (users s ++ [UserRow fresh ANONYMOUS_EMAIL]) s)).
Proof.
  unfold anon_upsert, ins, emails.
  destruct (decide (ANONYMOUS_EMAIL ∈ user_email <$> users s)) as [Hin|Hout].
  - left. split; [exact Hin|].
    rewrite bool_decide_eq_true_2 by exact Hin.
    destruct (select_id_by_email_present _ _ Hin) as (id & ids & Hsel & Hid).
    exists id. rewrite Hsel. cbn. repeat split; [|exact Hid].
    destruct s; reflexivity.
  - right. rewrite bool_decide_eq_false_2 by exact Hout.
    destruct (decide (fresh ∈ user_id <$> users s)) as [Hf|Hf].
    + left. rewrite bool_decide_eq_true_2 by exact Hf. eauto.
    + right. rewrite bool_decide_eq_false_2 by exact Hf.
      rewrite (select_id_by_email_absent _ _ Hout). cbn. auto.
Qed.

Lemma anon_upsert_on_current fresh s :
  anon_upsert_on (users s) fresh s = anon_upsert fresh s.
Proof. reflexivity. Qed.

(** The statement that started on [snapshot], by the three situations its
    insert can meet. *)
Lemma anon_upsert_on_spec snapshot fresh s :
  (ANONYMOUS_EMAIL ∈ emails s
   ∧ anon_upsert_on snapshot fresh s
     = (Ok (take 1 (select_id_by_email ANONYMOUS_EMAIL snapshot)), s))
  ∨ ((ANONYMOUS_EMAIL ∉ emails s) ∧ fresh ∈ (user_id <$> users s)
     ∧ anon_upsert_on snapshot fresh s
       = (Throw ("duplicate key value violates unique constraint " ++ quoted "users_pkey"), s))
  ∨ ((ANONYMOUS_EMAIL ∉ emails s) ∧ (fresh ∉ (user_id <$> users s))
     ∧ anon_upsert_on snapshot fresh s
       = (Ok [fresh], set_users (users s ++ [UserRow fresh ANONYMOUS_EMAIL]) s)).
Proof.
  unfold anon_upsert_on, ins, emails.
  destruct (decide (ANONYMOUS_EMAIL ∈ user_email <$> users s)) as [Hin|Hout].
  - left. split; [exact Hin|].
    rewrite bool_decide_eq_true_2 by exact Hin. cbn. by destruct s.
  - right. rewrite bool_decide_eq_false_2 by exact Hout.
    destruct (decide (fresh ∈ user_id <$> users s)) as [Hf|Hf].
    + left. rewrite bool_decide_eq_true_2 by exact Hf. auto.
    + right. rewrite bool_decide_eq_false_2 by exact Hf. cbn. auto.
Qed.

Lemma emails_after_insert fresh s :
  ANONYMOUS_EMAIL ∈ emails (set_users (users s ++ [UserRow fresh ANONYMOUS_EMAIL]) s).
Proof. unfold emails. cbn. rewrite fmap_app. apply elem_of_app. right. cbn. apply list_elem_of_here. Qed.

(** *** One call, then many *)

Lemma anon_upsert_users fresh s :
  users (anon_upsert fresh s).2 = users s
  ∨ ((ANONYMOUS_EMAIL ∉ emails s)
     ∧ users (anon_upsert fresh s).2 = users s ++ [UserRow fresh ANONYMOUS_EMAIL]).
Proof.
  destruct (anon_upsert_spec fresh s) as [(_ & id & -> & _)|[(_ & _ & m & ->)|(Hn & _ & ->)]];
    cbn; auto.
Qed.

Lemma anon_upsert_result fresh s id rows :
  nonempty_ids s → truthy fresh = true →
  (anon_upsert fresh s).1 = Ok (id :: rows) → truthy id = true.
Proof.
  intros Hs Hf.
  destruct (anon_upsert_spec fresh s)
    as [(_ & id' & -> & Hin & _)|[(_ & _ & m & ->)|(_ & _ & ->)]]; cbn; intros [= <- <-].
  - apply list_elem_of_fmap in Hin as (u & -> & Hu).
    unfold nonempty_ids in Hs. rewrite Forall_forall in Hs. by apply Hs.
  - exact Hf.
Qed.

Lemma anon_upsert_nonempty fresh s :
  nonempty_ids s → truthy fresh = true → nonempty_ids (anon_upsert fresh s).2.
Proof.
  intros Hs Hf. unfold nonempty_ids in *.
  destruct (anon_upsert_users fresh s) as [->|[_ ->]]; [exact Hs|].
  apply Forall_app. split; [exact Hs|]. by repeat constructor.
Qed.

(** One call: ids stay non-empty, at most the anonymous row is added, a
    success is cached and a failure leaves the cache alone. *)
Lemma call_spec e w r w' :
  nonempty_ids (db w) → cache_ok w → truthy (q_uuid e) = true →
  getOrCreateAnonymousUserId e w = (r, w') →
  nonempty_ids (db w') ∧ cache_ok w'
  ∧ (users (db w') = users (db w)
     ∨ ((ANONYMOUS_EMAIL ∉ emails (db w))
        ∧ users (db w') = users (db w) ++ [UserRow (q_uuid e) ANONYMOUS_EMAIL]))
  ∧ match r with
    | Ok a => cachedAnonymousUserId w' = Some a ∧ truthy a = true
    | Throw _ => cachedAnonymousUserId w' = cachedAnonymousUserId w
    end.
Proof.
  intros Hs Hc Hf H. unfold getOrCreateAnonymousUserId in H.
  destruct (truthy_opt (cachedAnonymousUserId w)) eqn:Ht.
  - destruct (cachedAnonymousUserId w) as [id|] eqn:Hid; [|discriminate].
    cbn in Ht. rewrite (resolve_cached _ w id Hid Ht) in H. injection H as <- <-.
    repeat split; auto.
  - rewrite (resolve_uncached _ w Ht) in H.
    unfold anon_query, pool_query in H.
    pose proof (anon_upsert_users (q_uuid e) (db w)) as Hu.
    pose proof (anon_upsert_nonempty (q_uuid e) (db w) Hs Hf) as Hn.
    pose proof (anon_upsert_result (q_uuid e) (db w)) as Hr.
    destruct (q_link e) as [|m|m]; cbn in H.
    + destruct (anon_upsert (q_uuid e) (db w)) as [[[|id rows]|m] s'];
        cbn in *; injection H as <- <-; cbn.
      * repeat split; auto.
      * assert (truthy id = true) as Hid by (by eapply Hr).
        repeat split; auto. intros ? [= <-]. exact Hid.
      * repeat split; auto.
    + injection H as <- <-. cbn. repeat split; auto.
    + destruct (anon_upsert (q_uuid e) (db w)) as [r0 s'];
        cbn in *; injection H as <- <-; cbn. repeat split; auto.
Qed.

Lemma calls_cons e es w :
  calls (e :: es) w =
  ((getOrCreateAnonymousUserId e w).1 :: (calls es (getOrCreateAnonymousUserId e w).2).1,
   (calls es (getOrCreateAnonymousUserId e w).2).2).
Proof.
  cbn. destruct (getOrCreateAnonymousUserId e w) as [r w1]. cbn.
  destruct (calls es w1) as [rs w2]. reflexivity.
Qed.

(** Once the id is cached the process no longer touches anything. *)
Lemma calls_cached es w id :
  cachedAnonymousUserId w = Some id → truthy id = true →
  calls es w = (replicate (length es) (Ok id), w).
Proof.
  intros Hc Ht. induction es as [|e es IH]; [reflexivity|].
  rewrite calls_cons. unfold getOrCreateAnonymousUserId at 1 2 3.
  rewrite (resolve_cached _ w id Hc Ht). cbn. rewrite IH. reflexivity.
Qed.

Lemma calls_same_id es : ∀ w,
  nonempty_ids (db w) → cache_ok w → nonempty_uuids es →
  ∀ i j a b, (calls es w).1 !! i = Some (Ok a) → (calls es w).1 !! j = Some (Ok b) → a = b.
Proof.
  induction es as [|e es IH]; intros w Hs Hc Hes i j a b Hi Hj.
  { cbn in Hi. discriminate. }
  rewrite calls_cons in Hi, Hj. cbn in Hi, Hj.
  apply Forall_cons in Hes as [He Hes].
  destruct (getOrCreateAnonymousUserId e w) as [r w1] eqn:Hcall.
  destruct (call_spec e w r w1 Hs Hc He Hcall) as (Hs1 & Hc1 & _ & Hr).
  cbn in Hi, Hj. destruct r as [c|m].
  - destruct Hr as [Hcache Ht]. rewrite (calls_cached es w1 c Hcache Ht) in Hi, Hj.
    cbn in Hi, Hj.
    assert (∀ k x, (Ok c :: replicate (length es) (Ok c)) !! k = Some (Ok x) → x = c) as Hall.
    { intros k x Hk. change (replicate (S (length es)) (Ok c) !! k = Some (Ok x)) in Hk.
      apply lookup_replicate in Hk as [[= ->] _]. reflexivity. }
    rewrite (Hall _ _ Hi), (Hall _ _ Hj). reflexivity.
  - destruct i as [|i]; [discriminate|]. destruct j as [|j]; [discriminate|].
    cbn in Hi, Hj. eapply (IH w1); eauto.
Qed.

Lemma calls_quiet_after_success es : ∀ w i a,
  nonempty_ids (db w) → cache_ok w → nonempty_uuids es →
  (calls es w).1 !! i = Some (Ok a) →
  (calls es w).2 = (calls (take (S i) es) w).2.
Proof.
  induction es as [|e es IH]; intros w i a Hs Hc Hes Hi.
  { cbn in Hi. discriminate. }
  apply Forall_cons in Hes as [He Hes].
  rewrite firstn_cons, !calls_cons. rewrite calls_cons in Hi. cbn in Hi |- *.
  destruct (getOrCreateAnonymousUserId e w) as [r w1] eqn:Hcall.
  destruct (call_spec e w r w1 Hs Hc He Hcall) as (Hs1 & Hc1 & _ & Hr).
  cbn in Hi |- *. destruct i as [|i].
  - cbn in Hi. injection Hi as ->. destruct Hr as [Hcache Ht].
    rewrite (calls_cached es w1 a Hcache Ht). rewrite take_0. reflexivity.
  - cbn in Hi. by eapply IH.
Qed.

Lemma calls_users_fixed es : ∀ w,
  ANONYMOUS_EMAIL ∈ emails (db w) → users (db (calls es w).2) = users (db w).
Proof.
  induction es as [|e es IH]; intros w Hin; [reflexivity|].
  rewrite calls_cons. cbn.
  assert (users (db (getOrCreateAnonymousUserId e w).2) = users (db w)) as Hfix.
  { unfold getOrCreateAnonymousUserId.
    destruct (truthy_opt (cachedAnonymousUserId w)) eqn:Ht.
    - destruct (cachedAnonymousUserId w) as [id|] eqn:Hid; [|discriminate].
      cbn in Ht. by rewrite (resolve_cached _ w id Hid Ht).
    - rewrite (resolve_uncached _ w Ht). unfold anon_query, pool_query.
      destruct (anon_upsert_users (q_uuid e) (db w)) as [Hu|[Hn _]]; [|done].
      destruct (q_link e); cbn; [| reflexivity |];
        destruct (anon_upsert (q_uuid e) (db w)) as [[[|? ?]|?] ?]; cbn in *; exact Hu. }
  rewrite IH; [exact Hfix|]. unfold emails. rewrite Hfix. exact Hin.
Qed.

Lemma calls_one_row es : ∀ w,
  nonempty_ids (db w) → cache_ok w → nonempty_uuids es →
  (length (users (db (calls es w).2)) ≤ S (length (users (db w))))%nat.
Proof.
  induction es as [|e es IH]; intros w Hs Hc Hes; [cbn; lia|].
  apply Forall_cons in Hes as [He Hes].
  rewrite calls_cons. cbn.
  destruct (getOrCreateAnonymousUserId e w) as [r w1] eqn:Hcall.
  destruct (call_spec e w r w1 Hs Hc He Hcall) as (Hs1 & Hc1 & [Hu|[_ Hu]] & _); cbn.
  - specialize (IH w1 Hs1 Hc1 Hes). rewrite Hu in IH. exact IH.
  - rewrite calls_users_fixed.
    + rewrite Hu, length_app. cbn. lia.
    + unfold emails. rewrite Hu, fmap_app. apply elem_of_app. right. apply list_elem_of_here.
Qed.

Lemma calls_healthy e es w :
  cachedAnonymousUserId w = None → nonempty_ids (db w) → truthy (q_uuid e) = true →
  healthy (db w) e →
  ∃ id, (calls (e :: es) w).1 = replicate (S (length es)) (Ok id)
        ∧ sent (calls (e :: es) w).2 = "anon_upsert" :: sent w.
Proof.
  intros Hc Hs Hf [Hl Hfresh]. rewrite calls_cons. cbn.
  assert (∃ id w1, getOrCreateAnonymousUserId e w = (Ok id, w1)
                   ∧ sent w1 = "anon_upsert" :: sent w) as (id & w1 & Hcall & Hsent).
  { unfold getOrCreateAnonymousUserId. rewrite resolve_uncached by (by rewrite Hc).
    unfold anon_query, pool_query. rewrite Hl. cbn.
    destruct (anon_upsert_spec (q_uuid e) (db w))
      as [(_ & id & -> & _)|[(_ & Hin & _)|(_ & _ & ->)]]; cbn; eauto.
    contradiction. }
  assert (cache_ok w) as Hok by (intros ?; rewrite Hc; discriminate).
  destruct (call_spec e w _ _ Hs Hok Hf Hcall) as (_ & _ & _ & Hcache & Ht).
  rewrite Hcall. cbn. rewrite (calls_cached es w1 id Hcache Ht). cbn. eauto.
Qed.

(** C6. [N >= 1] calls in one process that has just started, whatever happens to
    their statements: the calls that return an id all return the same one; the
    users table grows by one row at most; once a call has succeeded the
    process state, and with it the list of statements sent to the database,
    no longer changes; and when the database is reachable every call
    returns that one id and a single statement is sent in all. *)
Theorem anonymous_resolution_idempotent (es : list query_env) (w : world) :
  (1 ≤ length es)%nat →
  cachedAnonymousUserId w = None → nonempty_ids (db w) → nonempty_uuids es →
  (∀ i j a b, (calls es w).1 !! i = Some (Ok a) → (calls es w).1 !! j = Some (Ok b) → a = b)
  ∧ (length (users (db (calls es w).2)) ≤ S (length (users (db w))))%nat
  ∧ (∀ i a, (calls es w).1 !! i = Some (Ok a) →
            (calls es w).2 = (calls (take (S i) es) w).2)
  ∧ (Forall (healthy (db w)) es →
     ∃ id, (calls es w).1 = replicate (length es) (Ok id)
           ∧ sent (calls es w).2 = "anon_upsert" :: sent w).
Proof.
  intros Hlen Hc Hs Hes.
  assert (cache_ok w) as Hok by (intros ?; rewrite Hc; discriminate).
  split; [by apply calls_same_id|].
  split; [by apply calls_one_row|].
  split; [intros i a; by apply calls_quiet_after_success|].
  intros Hh. destruct es as [|e es]; [cbn in Hlen; lia|].
  apply Forall_cons in Hh as [Hh _]. apply Forall_cons in Hes as [He _].
  by apply calls_healthy.
Qed.

Lemma anonymous_resolution_idempotent_witness :
  let es := [QueryEnv (Refused "ECONNREFUSED") "u-1"; QueryEnv Delivered "u-2";
             QueryEnv Delivered "u-3"] in
  let w := boot empty_store in
  (calls es w).1 = [Throw "ECONNREFUSED"; Ok "u-2"; Ok "u-2"]
  ∧ (length (users (db (calls es w).2)) ≤ 1)%nat
  ∧ sent (calls es w).2 = sent (calls (take 2 es) w).2.
Proof.
  intros es w.
  assert (1 ≤ length es)%nat as H1 by (cbn; lia).
  assert (cachedAnonymousUserId w = None) as H2 by reflexivity.
  assert (nonempty_ids (db w)) as H3 by constructor.
  assert (nonempty_uuids es) as H4 by (repeat constructor).
  destruct (anonymous_resolution_idempotent es w H1 H2 H3 H4) as (_ & Hrows & Hquiet & _).
  split; [reflexivity|]. split; [exact Hrows|].
  by rewrite (Hquiet 1%nat "u-2" eq_refl).
Defined.

(** ** Concurrent first calls *)

Section concurrent.
Import Concurrent.

Variable s0 : store.
Hypothesis no_anonymous_row : ANONYMOUS_EMAIL ∉ emails s0.

Lemma select_after_insert id :
  select_id_by_email ANONYMOUS_EMAIL (users s0 ++ [UserRow id ANONYMOUS_EMAIL]) = [id].
Proof.
  unfold select_id_by_email. rewrite filter_app, fmap_app.
  fold (select_id_by_email ANONYMOUS_EMAIL (users s0)).
  rewrite (select_id_by_email_absent _ _ no_anonymous_row).
  rewrite filter_cons. cbn. rewrite decide_True by reflexivity. reflexivity.
Qed.

Lemma exec_before snapshot e :
  Concurrent.healthy s0 (Exec 0 e) →
  exec snapshot e s0
  = (Ok [q_uuid e], set_users (users s0 ++ [UserRow (q_uuid e) ANONYMOUS_EMAIL]) s0).
Proof.
  intros [Hl Hf]. unfold exec. rewrite Hl.
  destruct (anon_upsert_on_spec snapshot (q_uuid e) s0)
    as [(Hin & _)|[(_ & Hin & _)|(_ & _ & ->)]];
    [contradiction | contradiction | reflexivity].
Qed.

(** Once the row is there, a statement that started after it reads it. *)
Lemma exec_after e id :
  q_link e = Delivered →
  let s1 := set_users (users s0 ++ [UserRow id ANONYMOUS_EMAIL]) s0 in
  exec (users s1) e s1 = (Ok [id], s1).
Proof.
  intros Hl s1. unfold exec. rewrite Hl.
  destruct (anon_upsert_on_spec (users s1) (q_uuid e) s1) as [(_ & ->)|[(Hn & _)|(Hn & _)]].
  - change (users s1) with (users s0 ++ [UserRow id ANONYMOUS_EMAIL]).
    by rewrite select_after_insert.
  - destruct Hn. apply emails_after_insert.
  - destruct Hn. apply emails_after_insert.
Qed.

(** Once the row is there, a statement that started before it neither
    inserts nor reads it. *)
Lemma exec_stale e id :
  q_link e = Delivered →
  let s1 := set_users (users s0 ++ [UserRow id ANONYMOUS_EMAIL]) s0 in
  exec (users s0) e s1 = (Ok [], s1).
Proof.
  intros Hl s1. unfold exec. rewrite Hl.
  destruct (anon_upsert_on_spec (users s0) (q_uuid e) s1) as [(_ & ->)|[(Hn & _)|(Hn & _)]].
  - by rewrite (select_id_by_email_absent _ _ no_anonymous_row).
  - destruct Hn. apply emails_after_insert.
  - destruct Hn. apply emails_after_insert.
Qed.

Lemma unsettled_settled id (cs : list caller) :
  Forall (λ th, unsettled (at_phase th)) cs → Forall (λ th, settled id (at_phase th)) cs.
Proof. intros H. eapply Forall_impl; [exact H|]. intros th [-> | ->]; exact I. Qed.

(** Every event of a healthy schedule preserves the invariant. *)
Lemma step_inv ev c : Concurrent.healthy s0 ev → inv s0 c → inv s0 (step ev c).
Proof.
  intros Hev Hinv. destruct ev as [t|t|t e|t]; cbn; [| destruct Hev | |].
  - destruct (callers c !! t) as [[p ph]|] eqn:Ht; [|exact Hinv].
    destruct ph; try exact Hinv.
    destruct Hinv as [Hdb Hcache Hall | id Hdb Hcache Hall].
    + apply inv_before; cbn; [exact Hdb | exact Hcache |].
      apply Forall_insert; [exact Hall|]. cbn. rewrite Hcache, lookup_empty.
      right. reflexivity.
    + apply (inv_after _ _ id); cbn; [exact Hdb | exact Hcache |].
      apply Forall_insert; [exact Hall|]. cbn. unfold enter.
      destruct (caches c !! p) as [x|] eqn:Hx; cbn; [|exact I].
      destruct (truthy x); [|exact I]. cbn. by rewrite (Hcache p x Hx).
  - destruct (callers c !! t) as [[p ph]|] eqn:Ht; [|exact Hinv].
    destruct ph as [| |snapshot|r|r]; try exact Hinv.
    + destruct Hinv as [Hdb Hcache Hall | id Hdb Hcache Hall].
      * rewrite Hdb, (exec_before (users s0) e Hev).
        apply (inv_after _ _ (q_uuid e)); cbn; [reflexivity | |].
        -- intros q x. rewrite Hcache, lookup_empty. discriminate.
        -- apply Forall_insert; [by apply unsettled_settled|]. reflexivity.
      * destruct Hev as [Hl _]. rewrite Hdb, (exec_after e id Hl).
        apply (inv_after _ _ id); cbn; [reflexivity | exact Hcache |].
        apply Forall_insert; [exact Hall|]. reflexivity.
    + exfalso. destruct Hinv as [_ _ Hall | id _ _ Hall];
        rewrite Forall_lookup in Hall; specialize (Hall _ _ Ht); cbn in Hall.
      * destruct Hall; discriminate.
      * exact Hall.
  - destruct (callers c !! t) as [[p ph]|] eqn:Ht; [|exact Hinv].
    destruct ph as [| |snapshot|r|r]; try exact Hinv.
    destruct Hinv as [Hdb Hcache Hall | id Hdb Hcache Hall].
    + rewrite Forall_lookup in Hall. specialize (Hall _ _ Ht).
      destruct Hall as [Hall|Hall]; discriminate.
    + pose proof Hall as Hall'. rewrite Forall_lookup in Hall'.
      specialize (Hall' _ _ Ht). cbn in Hall'. subst r. cbn.
      apply (inv_after _ _ id); cbn; [exact Hdb | |].
      * intros q x. rewrite lookup_insert. case_decide; [by intros [= <-]|by apply Hcache].
      * apply Forall_insert; [exact Hall|]. reflexivity.
Qed.

Lemma run_inv evs : ∀ c, Forall (Concurrent.healthy s0) evs → inv s0 c → inv s0 (run evs c).
Proof.
  induction evs as [|ev evs IH]; intros c Hevs Hinv; [exact Hinv|].
  apply Forall_cons in Hevs as [Hev Hevs]. cbn. apply IH; [exact Hevs|].
  by apply step_inv.
Qed.

Lemma init_inv processes : inv s0 (init s0 processes).
Proof.
  apply inv_before; cbn; [reflexivity | reflexivity |].
  apply Forall_fmap, Forall_true. intros p. left. reflexivity.
Qed.

Lemma step_length ev c : length (callers (step ev c)) = length (callers c).
Proof.
  destruct ev as [t|t|t e|t]; cbn;
    destruct (callers c !! t) as [[p ph]|]; try reflexivity;
    destruct ph; try reflexivity; cbn; unfold set_phase.
  - by rewrite length_insert.
  - by rewrite length_insert.
  - destruct (exec (users (database c)) e (database c)). cbn. by rewrite length_insert.
  - destruct (exec snapshot e (database c)). cbn. by rewrite length_insert.
  - destruct (resume r). cbn. by rewrite length_insert.
Qed.

Lemma run_length evs : ∀ c, length (callers (run evs c)) = length (callers c).
Proof.
  induction evs as [|ev evs IH]; intros c; [reflexivity|].
  cbn. rewrite IH. apply step_length.
Qed.

(** The pieces of a call, one event each. *)
Lemma step_enter t p c :
  callers c !! t = Some (Caller p Called) →
  step (Enter t) c
  = Config (database c) (caches c) (<[t := Caller p (enter (caches c !! p))]> (callers c)).
Proof. intros Ht. cbn. by rewrite Ht. Qed.

Lemma step_begin t p c :
  callers c !! t = Some (Caller p Awaiting) →
  step (Begin t) c
  = Config (database c) (caches c) (<[t := Caller p (Running (users (database c)))]> (callers c)).
Proof. intros Ht. cbn. by rewrite Ht. Qed.

Lemma step_exec t p snapshot e c :
  callers c !! t = Some (Caller p (Running snapshot)) →
  step (Exec t e) c
  = Config (exec snapshot e (database c)).2 (caches c)
           (<[t := Caller p (Replied (exec snapshot e (database c)).1)]> (callers c)).
Proof. intros Ht. cbn. rewrite Ht. by destruct (exec snapshot e (database c)). Qed.

Lemma step_resume t p r c :
  callers c !! t = Some (Caller p (Replied r)) →
  step (Resume t) c
  = Config (database c)
           (from_option (λ id, <[p := id]> (caches c)) (caches c) (resume r).2)
           (<[t := Caller p (Returned (resume r).1)]> (callers c)).
Proof. intros Ht. cbn. rewrite Ht. by destruct (resume r) as [res [id|]]. Qed.

End concurrent.

(** Callers, in any processes, start when no anonymous row exists and run
    interleaved in any order, with no two statements overlapping: each
    starts and ends with nothing in between.  When all of them have
    returned, the users table has gained exactly one row, it is the only
    row with the anonymous email, and every caller has received its id. *)
Lemma first_calls_without_overlap_one_identity
    (s0 : store) (processes : list nat) (evs : list Concurrent.event) :
  (2 ≤ length processes)%nat →
  ANONYMOUS_EMAIL ∉ emails s0 →
  Forall (Concurrent.healthy s0) evs →
  Forall (λ th, Concurrent.returned th = true)
         (Concurrent.callers (Concurrent.run evs (Concurrent.init s0 processes))) →
  ∃ id,
    users (Concurrent.database (Concurrent.run evs (Concurrent.init s0 processes)))
    = users s0 ++ [UserRow id ANONYMOUS_EMAIL]
    ∧ select_id_by_email ANONYMOUS_EMAIL
        (users (Concurrent.database (Concurrent.run evs (Concurrent.init s0 processes))))
      = [id]
    ∧ length (Concurrent.callers (Concurrent.run evs (Concurrent.init s0 processes)))
      = length processes
    ∧ ∀ t th,
        Concurrent.callers (Concurrent.run evs (Concurrent.init s0 processes)) !! t = Some th →
        Concurrent.at_phase th = Concurrent.Returned (Ok id).
Proof.
  intros Hn Hs0 Hevs Hret.
  pose proof (run_inv s0 Hs0 evs _ Hevs (init_inv s0 processes)) as Hinv.
  pose proof (run_length evs (Concurrent.init s0 processes)) as Hlen.
  cbn in Hlen. rewrite length_fmap in Hlen.
  set (c := Concurrent.run evs (Concurrent.init s0 processes)) in *.
  rewrite Forall_lookup in Hret.
  destruct Hinv as [_ _ Hall | id Hdb _ Hall].
  - exfalso. destruct (lookup_lt_is_Some_2 (Concurrent.callers c) 0%nat) as [th Hth]; [lia|].
    rewrite Forall_lookup in Hall. specialize (Hall _ _ Hth). specialize (Hret _ _ Hth).
    unfold Concurrent.returned in Hret. destruct Hall as [Hp|Hp]; rewrite Hp in Hret; discriminate.
  - exists id. rewrite Hdb. cbn. repeat split.
    + by apply select_after_insert.
    + exact Hlen.
    + intros t th Hth. rewrite Forall_lookup in Hall.
      specialize (Hall _ _ Hth). specialize (Hret _ _ Hth).
      unfold Concurrent.returned in Hret. destruct (Concurrent.at_phase th); try discriminate.
      cbn in Hall. by rewrite Hall.
Qed.

(** C2. Two first calls, in any processes, on a table without
    an anonymous row, whose statements both start before either ends; both
    statements reach the database and are answered.  The first to end
    inserts the row and its caller gets the id.  The second is kept from
    inserting by that row and reads the table as it was when it started: it
    comes back with no row, and its caller does not receive the id but
    throws.  One row has been created. *)
Theorem overlapping_first_calls_second_throws (s0 : store) (p q : nat) (a b : string) :
  ANONYMOUS_EMAIL ∉ emails s0 →
  a ∉ ids s0 →
  Concurrent.callers
    (Concurrent.run (Concurrent.overlapping a b) (Concurrent.init s0 [p; q]))
  = [Concurrent.Caller p (Concurrent.Returned (Ok a));
     Concurrent.Caller q
       (Concurrent.Returned (Throw "Failed to get or create anonymous user"))]
  ∧ users (Concurrent.database
             (Concurrent.run (Concurrent.overlapping a b) (Concurrent.init s0 [p; q])))
    = users s0 ++ [UserRow a ANONYMOUS_EMAIL].
Proof.
  intros Hs0 Ha. unfold Concurrent.overlapping, Concurrent.init.
  cbn [Concurrent.run fmap list_fmap].
  rewrite (step_enter 0 p) by reflexivity. cbn [Concurrent.callers Concurrent.caches
    Concurrent.database]. rewrite lookup_empty. cbn [Concurrent.enter truthy_opt].
  rewrite (step_enter 1 q) by reflexivity. cbn [Concurrent.callers Concurrent.caches
    Concurrent.database]. rewrite lookup_empty. cbn [Concurrent.enter truthy_opt].
  rewrite (step_begin 0 p) by reflexivity.
  rewrite (step_begin 1 q) by reflexivity.
  cbn [Concurrent.callers Concurrent.caches Concurrent.database].
  rewrite (step_exec 0 p (users s0)) by reflexivity.
  cbn [Concurrent.callers Concurrent.caches Concurrent.database].
  rewrite (exec_before s0 Hs0 (users s0) (QueryEnv Delivered a)) by (split; [reflexivity|exact Ha]).
  cbn [fst snd q_uuid].
  rewrite (step_exec 1 q (users s0)) by reflexivity.
  cbn [Concurrent.callers Concurrent.caches Concurrent.database].
  rewrite (exec_stale s0 Hs0 (QueryEnv Delivered b) a eq_refl).
  cbn [fst snd].
  rewrite (step_resume 0 p (Ok [a])) by reflexivity.
  rewrite (step_resume 1 q (Ok [])) by reflexivity.
  cbn. auto.
Qed.

Lemma overlapping_first_calls_second_throws_witness :
  Concurrent.callers
    (Concurrent.run (Concurrent.overlapping "u-a" "u-b")
                    (Concurrent.init empty_store [7; 8]%nat))
  = [Concurrent.Caller 7 (Concurrent.Returned (Ok "u-a"));
     Concurrent.Caller 8
       (Concurrent.Returned (Throw "Failed to get or create anonymous user"))]
  ∧ users (Concurrent.database
             (Concurrent.run (Concurrent.overlapping "u-a" "u-b")
                             (Concurrent.init empty_store [7; 8]%nat)))
    = [UserRow "u-a" ANONYMOUS_EMAIL].
Proof.
  apply (overlapping_first_calls_second_throws empty_store 7 8 "u-a" "u-b").
  - cbn. apply not_elem_of_nil.
  - cbn. apply not_elem_of_nil.
Defined.

(** Three first calls of one process and another, all three statements
    started before the first ends: one caller gets the id, two throw. *)
Example three_overlapping_first_calls :
  Concurrent.callers
    (Concurrent.run
       [Concurrent.Enter 0; Concurrent.Enter 1; Concurrent.Enter 2;
        Concurrent.Begin 0; Concurrent.Begin 1; Concurrent.Begin 2;
        Concurrent.Exec 0 (QueryEnv Delivered "u-a");
        Concurrent.Exec 1 (QueryEnv Delivered "u-b");
        Concurrent.Exec 2 (QueryEnv Delivered "u-c");
        Concurrent.Resume 0; Concurrent.Resume 1; Concurrent.Resume 2]
       (Concurrent.init empty_store [7; 7; 8]%nat))
  = [Concurrent.Caller 7 (Concurrent.Returned (Ok "u-a"));
     Concurrent.Caller 7
       (Concurrent.Returned (Throw "Failed to get or create anonymous user"));
     Concurrent.Caller 8
       (Concurrent.Returned (Throw "Failed to get or create anonymous user"))].
Proof. reflexivity. Qed.

(** ** The order-number migration *)

Section migration.
Import Migration.

Lemma numbered_legacy ids : ∀ next,
  numbered ((λ i, Row i None) <$> ids) next
  = ((λ r, (row_id r, default 0 (order_number r))) <$> number_from ids next,
     next + Z.of_nat (length ids)).
Proof.
  induction ids as [|i ids IH]; intros next.
  - cbn. f_equal. lia.
  - cbn [fmap list_fmap numbered order_number row_id number_from].
    rewrite IH. cbn. f_equal. lia.
Qed.

(** With distinct keys the update gives each row the number drawn for it. *)
Lemma update_from_legacy ids : ∀ (l0 : list (string * Z)) next,
  NoDup ids → (∀ i, i ∈ ids → i ∉ l0.*1) →
  update_from (l0 ++ ((λ r, (row_id r, default 0 (order_number r))) <$> number_from ids next))
              ((λ i, Row i None) <$> ids)
  = number_from ids next.
Proof.
  induction ids as [|i ids IH]; intros l0 next Hnd Hl0; [reflexivity|].
  apply NoDup_cons in Hnd as [Hi Hnd].
  cbn [fmap list_fmap number_from update_from row_id order_number default from_option].
  f_equal.
  - assert (list_find (λ p : string * Z, p.1 = i) l0 = None) as Hnone.
    { apply list_find_None, Forall_forall. intros [j m] Hj Heq. cbn in Heq. subst j.
      apply (Hl0 i); [apply list_elem_of_here|].
      apply list_elem_of_fmap. exists (i, m). split; [reflexivity|exact Hj]. }
    rewrite list_find_app_r by exact Hnone. cbn. rewrite decide_True by reflexivity.
    reflexivity.
  - rewrite cons_middle, app_assoc. apply (IH (l0 ++ [(i, next)]) (next + 1) Hnd).
    intros j Hj. rewrite fmap_app, not_elem_of_app. split.
    + apply Hl0. by apply list_elem_of_further.
    + cbn. intros Hin. apply list_elem_of_singleton in Hin. subst j. contradiction.
Qed.

Lemma number_from_ids ids : ∀ next, row_id <$> number_from ids next = ids.
Proof. induction ids as [|i ids IH]; intros next; [reflexivity|]. cbn. by rewrite IH. Qed.

Lemma number_from_numbers ids : ∀ next,
  order_number <$> number_from ids next = Some <$> seqZ next (Z.of_nat (length ids)).
Proof.
  induction ids as [|i ids IH]; intros next; [reflexivity|].
  cbn [number_from fmap list_fmap order_number length].
  rewrite (seqZ_cons next) by lia. rewrite fmap_cons. f_equal.
  rewrite IH. do 2 f_equal; lia.
Qed.

Lemma numbers_Some (rs : list row) (ns : list Z) :
  order_number <$> rs = Some <$> ns → numbers rs = ns.
Proof.
  unfold numbers. revert ns. induction rs as [|r rs IH]; intros [|n ns] H; try discriminate.
  - reflexivity.
  - cbn in H. injection H as Hr H. cbn. rewrite Hr. cbn. f_equal. by apply IH.
Qed.

Lemma number_from_drawn ids next :
  ((λ r, (row_id r, default 0 (order_number r))) <$> number_from ids next).*2
  = seqZ next (Z.of_nat (length ids)).
Proof.
  revert next. induction ids as [|i ids IH]; intros next; [reflexivity|].
  cbn [number_from fmap list_fmap order_number length default from_option snd].
  rewrite (seqZ_cons next) by lia. f_equal.
  etransitivity; [apply IH|]. f_equal; lia.
Qed.

Lemma in_range_seqZ start n :
  INT_MIN ≤ start → start + n - 1 ≤ INT_MAX → forallb in_integer_range (seqZ start n) = true.
Proof.
  intros Hlo Hhi. apply forallb_forall. intros m Hm.
  apply list_elem_of_In, elem_of_seqZ in Hm. unfold in_integer_range.
  apply andb_true_intro. split; apply Z.leb_le; lia.
Qed.

(** The six statements on a table from before the migration. *)
Lemma migration_result seq0 ids :
  NoDup ids →
  INT_MIN ≤ default 1 seq0 → default 1 seq0 + Z.of_nat (length ids) - 1 ≤ INT_MAX →
  exec_all migration (legacy seq0 ids)
  = Ok (Schema (Some (default 1 seq0 + Z.of_nat (length ids))) true true true true
               (number_from ids (default 1 seq0))).
Proof.
  intros Hnd Hlo Hhi. unfold migration, legacy.
  set (start := default 1 seq0) in *.
  cbn [exec_all exec sequence has_column not_null unique_index default_nextval rows negb].
  rewrite <- list_fmap_compose.
  change ((λ r, Row (row_id r) None) ∘ (λ i, Row i None)) with (λ i : string, Row i None).
  fold start.
  rewrite numbered_legacy.
  pose proof (update_from_legacy ids [] start Hnd) as Hupd. cbn [app] in Hupd.
  rewrite Hupd by (intros; apply not_elem_of_nil).
  rewrite number_from_drawn, in_range_seqZ by assumption.
  cbn [negb andb exec_all exec sequence has_column not_null unique_index default_nextval rows].
  rewrite number_from_numbers.
  rewrite bool_decide_eq_false_2.
  2:{ intros Hin. apply list_elem_of_fmap in Hin as (m & Hm & _). discriminate. }
  cbn [negb andb exec_all exec sequence has_column not_null unique_index default_nextval rows].
  rewrite (numbers_Some _ _ (number_from_numbers ids start)).
  rewrite bool_decide_eq_true_2 by apply NoDup_seqZ.
  reflexivity.
Qed.

End migration.

Section inserts_after_migration.
Import Migration.

Lemma insert_spec id d n :
  default_nextval d = true → sequence d = Some n →
  default_nextval (insert id d).2 = true
  ∧ sequence (insert id d).2 = Some (n + 1)
  ∧ (((insert id d).1 = Ok (Some n)
      ∧ numbers (rows (insert id d).2) = numbers (rows d) ++ [n])
     ∨ ((∃ m, (insert id d).1 = Throw m)
        ∧ rows (insert id d).2 = rows d)).
Proof.
  intros Hd Hs. unfold insert. rewrite Hd, Hs. unfold checked_insert.
  cbn [from_option]. destruct (negb (in_integer_range n)); [cbn; eauto 10|].
  destruct (not_null (set_sequence (n + 1) d)); cbn [andb];
    (destruct (bool_decide _); [cbn; eauto 10|]);
    (destruct (unique_index (set_sequence (n + 1) d) && _); [cbn; eauto 10|]);
    cbn; repeat split; try assumption; left; (split; [reflexivity|]);
    unfold numbers; rewrite omap_app; reflexivity.
Qed.

Lemma inserts_cons i new_ids d :
  inserts (i :: new_ids) d =
  (match (insert i d).1 with
   | Ok (Some n) => n :: (inserts new_ids (insert i d).2).1
   | _ => (inserts new_ids (insert i d).2).1
   end,
   (inserts new_ids (insert i d).2).2).
Proof.
  cbn. destruct (insert i d) as [r d1]. cbn. destruct (inserts new_ids d1). reflexivity.
Qed.

(** New orders take the values of the sequence from where it stands, in
    order, each at most once. *)
Lemma inserts_spec new_ids : ∀ d n,
  default_nextval d = true → sequence d = Some n →
  numbers (rows (inserts new_ids d).2) = numbers (rows d) ++ (inserts new_ids d).1
  ∧ default_nextval (inserts new_ids d).2 = true
  ∧ sequence (inserts new_ids d).2 = Some (n + Z.of_nat (length new_ids))
  ∧ Forall (λ m, n ≤ m < n + Z.of_nat (length new_ids)) (inserts new_ids d).1
  ∧ StronglySorted Z.lt (inserts new_ids d).1.
Proof.
  induction new_ids as [|i new_ids IH]; intros d n Hd Hs.
  - cbn. rewrite app_nil_r, Z.add_0_r. repeat split; try done; constructor.
  - rewrite inserts_cons. cbn [fst snd length].
    destruct (insert_spec i d n Hd Hs) as (Hd1 & Hs1 & Hcase).
    destruct (IH _ _ Hd1 Hs1) as (Hnum & Hd2 & Hs2 & Hrange & Hsorted).
    assert (n + 1 + Z.of_nat (length new_ids) = n + Z.of_nat (S (length new_ids))) as Heq by lia.
    rewrite Heq in *.
    destruct Hcase as [[-> Hrows]|[[m ->] Hrows]].
    + rewrite Hnum, Hrows, <- app_assoc. repeat split; try done.
      * constructor; [lia|]. eapply Forall_impl; [exact Hrange|]. cbn. lia.
      * constructor; [exact Hsorted|]. eapply Forall_impl; [exact Hrange|]. cbn. lia.
    + rewrite Hnum, Hrows. repeat split; try done.
      eapply Forall_impl; [exact Hrange|]. cbn. lia.
Qed.

End inserts_after_migration.

(** C8. On an orders table from before the migration, with distinct keys and few
    enough rows for an [INTEGER] column, the migration goes through; every
    row gets a number, the numbers are the first values of the sequence, one
    each; the backfill comes before [SET NOT NULL] and before [SET DEFAULT];
    and whatever is inserted afterwards gets later values of the same
    sequence, so that no number of a new order is one of the backfilled ones
    and the numbers of the table stay distinct. *)
Theorem backfill_then_default (seq0 : option Z) (ids new_ids : list string) :
  NoDup ids →
  INT_MIN ≤ default 1 seq0 →
  default 1 seq0 + Z.of_nat (length ids) - 1 ≤ INT_MAX →
  ∃ d,
    Migration.exec_all Migration.migration (Migration.legacy seq0 ids) = Ok d
    ∧ Migration.row_id <$> Migration.rows d = ids
    ∧ Migration.order_number <$> Migration.rows d
      = Some <$> seqZ (default 1 seq0) (Z.of_nat (length ids))
    ∧ Migration.sequence d = Some (default 1 seq0 + Z.of_nat (length ids))
    ∧ (Migration.not_null d = true ∧ Migration.unique_index d = true
       ∧ Migration.default_nextval d = true)
    ∧ (∃ i j k, (i < j)%nat ∧ (i < k)%nat
                ∧ Migration.migration !! i = Some Migration.BACKFILL
                ∧ Migration.migration !! j = Some Migration.SET_NOT_NULL
                ∧ Migration.migration !! k = Some Migration.SET_DEFAULT)
    ∧ Forall (λ m, default 1 seq0 + Z.of_nat (length ids) ≤ m)
             (Migration.inserts new_ids d).1
    ∧ (∀ m, m ∈ (Migration.inserts new_ids d).1 →
            m ∉ seqZ (default 1 seq0) (Z.of_nat (length ids)))
    ∧ NoDup (Migration.numbers (Migration.rows (Migration.inserts new_ids d).2)).
Proof.
  intros Hnd Hlo Hhi. eexists. split; [by apply migration_result|].
  cbn [Migration.rows Migration.sequence Migration.not_null Migration.unique_index
       Migration.default_nextval].
  set (start := default 1 seq0) in *. set (n := Z.of_nat (length ids)) in *.
  set (d := Migration.Schema _ _ _ _ _ _).
  destruct (inserts_spec new_ids d (start + n) eq_refl eq_refl)
    as (Hnum & _ & _ & Hrange & Hsorted).
  assert (Migration.numbers (Migration.rows d) = seqZ start n) as Hold
    by (apply numbers_Some, number_from_numbers).
  split; [apply number_from_ids|]. split; [apply number_from_numbers|].
  split; [reflexivity|]. split; [done|].
  split; [exists 2%nat, 3%nat, 5%nat; repeat split; lia|].
  split; [eapply Forall_impl; [exact Hrange|]; cbn; lia|].
  split.
  - intros m Hm Hin. rewrite Forall_forall in Hrange. specialize (Hrange m Hm).
    apply elem_of_seqZ in Hin. lia.
  - rewrite Hnum, Hold. apply NoDup_app. split; [apply NoDup_seqZ|]. split.
    + intros m Hin Hm. rewrite Forall_forall in Hrange. specialize (Hrange m Hm).
      apply elem_of_seqZ in Hin. lia.
    + clear -Hsorted. induction Hsorted as [|m ms _ IH Hall]; constructor; [|exact IH].
      intros Hin. rewrite Forall_forall in Hall. specialize (Hall m Hin). lia.
Qed.

Lemma backfill_then_default_witness :
  ∃ d,
    Migration.exec_all Migration.migration (Migration.legacy None ["o-1"; "o-2"; "o-3"]) = Ok d
    ∧ Migration.order_number <$> Migration.rows d = [Some 1; Some 2; Some 3]
    ∧ (Migration.inserts ["o-4"; "o-2"; "o-5"] d).1 = [4; 6].
Proof.
  assert (NoDup ["o-1"; "o-2"; "o-3"]) as H1 by (apply (bool_decide_unpack _); vm_compute; exact I).
  assert (INT_MIN ≤ default 1 None) as H2 by (vm_compute; discriminate).
  assert (default 1 None + Z.of_nat (length ["o-1"; "o-2"; "o-3"]) - 1 ≤ INT_MAX) as H3
    by (vm_compute; discriminate).
  destruct (backfill_then_default None ["o-1"; "o-2"; "o-3"] ["o-4"; "o-2"; "o-5"] H1 H2 H3)
    as (d & Hd & _ & Hnum & _).
  exists d. split; [exact Hd|]. split; [exact Hnum|].
  cbn in Hd. injection Hd as <-. reflexivity.
Defined.

(** Making the column mandatory before the backfill fails on any table that
    has a row. *)
Example not_null_before_backfill_fails :
  Migration.exec_all
    [Migration.CREATE_SEQUENCE; Migration.ADD_COLUMN; Migration.SET_NOT_NULL;
     Migration.BACKFILL; Migration.CREATE_UNIQUE_INDEX; Migration.SET_DEFAULT]
    (Migration.legacy None ["o-1"])
  = Throw ("column " ++ quoted "order_number" ++ " of relation " ++ quoted "orders"
           ++ " contains null values").
Proof. reflexivity. Qed.

(** ** Order numbers *)

(** One insert: the sequence moves on by one; the row is appended with the
    value drawn, or nothing is appended. *)
Lemma insert_order_spec now f s :
  order_number_seq (insert_order now f s).2 = order_number_seq s + 1
  ∧ users (insert_order now f s).2 = users s
  ∧ ((∃ o, (insert_order now f s).1 = Ok o
           ∧ orders (insert_order now f s).2 = orders s ++ [o]
           ∧ order.orderNumber o = order_number_seq s
           ∧ (order.orderNumber o ∉ order_numbers (orders s))
           ∧ order.id o = fields.id f
           ∧ (order.id o ∉ (order.id <$> orders s))
           ∧ in_integer_range (order.orderNumber o) = true)
     ∨ ((∃ m, (insert_order now f s).1 = Throw m)
        ∧ orders (insert_order now f s).2 = orders s)).
Proof.
  unfold insert_order, nextval. cbn [fst snd].
  destruct (in_integer_range (order_number_seq s)) eqn:Hr; cbn [negb]; [|cbn; eauto 10].
  destruct (decide (fields.id f ∈ order.id <$> orders s)) as [Hid|Hid].
  { rewrite bool_decide_eq_true_2 by exact Hid. cbn. eauto 10. }
  rewrite bool_decide_eq_false_2 by exact Hid.
  destruct (decide (order_number_seq s ∈ order.orderNumber <$> orders s)) as [Hn|Hn].
  { rewrite bool_decide_eq_true_2 by exact Hn. cbn. eauto 10. }
  rewrite bool_decide_eq_false_2 by exact Hn.
  cbn. repeat split. left. eexists. repeat split; assumption.
Qed.

Lemma create_all_cons a attempts s :
  create_all (a :: attempts) s =
  ((create_one a s).1 :: (create_all attempts (create_one a s).2).1,
   (create_all attempts (create_one a s).2).2).
Proof.
  cbn. destruct (create_one a s) as [f s1]. cbn. destruct (create_all attempts s1). reflexivity.
Qed.

Lemma create_one_spec a s :
  order_number_seq (create_one a s).2 = order_number_seq s + 1
  ∧ ((∃ o, (create_one a s).1 = Committed o
           ∧ orders (create_one a s).2 = orders s ++ [o]
           ∧ order.orderNumber o = order_number_seq s
           ∧ order.orderNumber o ∉ order_numbers (orders s))
     ∨ ((∃ m, (create_one a s).1 = RolledBack (order_number_seq s) m)
        ∧ orders (create_one a s).2 = orders s)).
Proof.
  unfold create_one.
  destruct (insert_order_spec a.1 a.2 s) as (Hseq & _ & Hcase).
  destruct (insert_order a.1 a.2 s) as [[o|m] s'] eqn:Hins; cbn [fst snd] in *.
  - split; [exact Hseq|]. left.
    destruct Hcase as [(o' & [= <-] & Ho & Hn & Hfresh & _)|[[m Hm] _]]; [|discriminate].
    eauto 10.
  - split; [exact Hseq|]. right.
    destruct Hcase as [(o' & Ho' & _)|[_ Ho]]; [discriminate|]. eauto.
Qed.

Lemma create_all_spec attempts : ∀ s,
  orders (create_all attempts s).2 = orders s ++ committed (create_all attempts s).1
  ∧ order_number_seq (create_all attempts s).2 = order_number_seq s + Z.of_nat (length attempts)
  ∧ Forall (λ n, order_number_seq s ≤ n < order_number_seq s + Z.of_nat (length attempts))
           (order_numbers (committed (create_all attempts s).1))
  ∧ StronglySorted Z.lt (order_numbers (committed (create_all attempts s).1))
  ∧ (∀ n, order_number_seq s ≤ n < order_number_seq s + Z.of_nat (length attempts) →
          n ∈ order_numbers (committed (create_all attempts s).1)
          ∨ ∃ m, RolledBack n m ∈ (create_all attempts s).1).
Proof.
  induction attempts as [|a attempts IH]; intros s.
  - cbn. rewrite app_nil_r, Z.add_0_r. repeat split; try constructor. lia.
  - rewrite create_all_cons. cbn [fst snd length].
    destruct (create_one_spec a s) as (Hseq & Hcase).
    destruct (IH (create_one a s).2) as (Hord & Hs & Hrange & Hsorted & Hgaps).
    rewrite Hseq in Hs, Hrange, Hgaps.
    assert (order_number_seq s + 1 + Z.of_nat (length attempts)
            = order_number_seq s + Z.of_nat (S (length attempts))) as Heq by lia.
    rewrite Heq in *.
    destruct Hcase as [(o & Hf & Ho & Hn & _)|[[m Hf] Ho]]; rewrite Hf; cbn [committed omap].
    + fold (committed (create_all attempts (create_one a s).2).1).
      cbn [order_numbers fmap list_fmap].
      fold (order_numbers (committed (create_all attempts (create_one a s).2).1)).
      rewrite Hord, Ho, <- app_assoc. repeat split; try done.
      * constructor; [lia|]. eapply Forall_impl; [exact Hrange|]. cbn. lia.
      * constructor; [exact Hsorted|]. rewrite Hn.
        eapply Forall_impl; [exact Hrange|]. cbn. lia.
      * intros n Hrange_n. destruct (decide (n = order_number_seq s)) as [->|Hne].
        -- left. rewrite <- Hn. apply list_elem_of_here.
        -- destruct (Hgaps n ltac:(lia)) as [Hin|[m Hin]].
           ++ left. by apply list_elem_of_further.
           ++ right. exists m. by apply list_elem_of_further.
    + fold (committed (create_all attempts (create_one a s).2).1).
      rewrite Hord, Ho. repeat split; try done.
      * eapply Forall_impl; [exact Hrange|]. cbn. lia.
      * intros n Hrange_n. destruct (decide (n = order_number_seq s)) as [->|Hne].
        -- right. exists m. apply list_elem_of_here.
        -- destruct (Hgaps n ltac:(lia)) as [Hin|[m' Hin]].
           ++ left. exact Hin.
           ++ right. exists m'. by apply list_elem_of_further.
Qed.

(** A committed insert never repeats a number of the table. *)
Lemma create_all_NoDup attempts : ∀ s,
  NoDup (order_numbers (orders s)) →
  NoDup (order_numbers (orders (create_all attempts s).2)).
Proof.
  induction attempts as [|a attempts IH]; intros s Hnd; [exact Hnd|].
  rewrite create_all_cons. cbn [snd]. apply IH.
  destruct (create_one_spec a s) as (_ & [(o & _ & -> & _ & Hfresh)|[_ ->]]); [|exact Hnd].
  unfold order_numbers in *. rewrite fmap_app. apply NoDup_app. repeat split.
  - exact Hnd.
  - intros n Hin Hn. cbn in Hn. apply list_elem_of_singleton in Hn. subst n. contradiction.
  - cbn. apply NoDup_singleton.
Qed.

(** C1. Any sequence of creation attempts, of whatever handlers, connections and
    processes, run by the database one insert at a time on a table whose
    numbers are distinct: the orders created are appended in creation order
    with strictly increasing numbers, no number of the table is shared, the
    numbers are values of the counter from where it stood, and a value of
    that range that no order carries was drawn by an attempt that rolled
    back. *)
Theorem order_numbers_unique_and_increasing (attempts : list (Z * fields.t)) (s : store) :
  NoDup (order_numbers (orders s)) →
  orders (create_all attempts s).2 = orders s ++ committed (create_all attempts s).1
  ∧ StronglySorted Z.lt (order_numbers (committed (create_all attempts s).1))
  ∧ NoDup (order_numbers (orders (create_all attempts s).2))
  ∧ order_number_seq (create_all attempts s).2 = order_number_seq s + Z.of_nat (length attempts)
  ∧ Forall (λ n, order_number_seq s ≤ n < order_number_seq s + Z.of_nat (length attempts))
           (order_numbers (committed (create_all attempts s).1))
  ∧ (∀ n, order_number_seq s ≤ n < order_number_seq s + Z.of_nat (length attempts) →
          n ∈ order_numbers (committed (create_all attempts s).1)
          ∨ ∃ m, RolledBack n m ∈ (create_all attempts s).1).
Proof.
  intros Hnd. destruct (create_all_spec attempts s) as (Hord & Hseq & Hrange & Hsorted & Hgaps).
  repeat split; try assumption. by apply create_all_NoDup.
Qed.

Lemma order_numbers_unique_and_increasing_witness :
  let attempts := [(10, sample_fields "o-1"); (11, sample_fields "o-1");
                   (12, sample_fields "o-2")] in
  order_numbers (orders (create_all attempts empty_store).2) = [1; 3]
  ∧ StronglySorted Z.lt (order_numbers (committed (create_all attempts empty_store).1))
  ∧ NoDup (order_numbers (orders (create_all attempts empty_store).2)).
Proof.
  intros attempts.
  assert (NoDup (order_numbers (orders empty_store))) as H by apply NoDup_nil_2.
  destruct (order_numbers_unique_and_increasing attempts empty_store H)
    as (_ & Hsorted & Hnd & _).
  split; [reflexivity|]. split; [exact Hsorted | exact Hnd].
Defined.

(** ** The handlers on concrete requests *)

Example createOrder_scenario :
  createOrder calm (alice_orders (Some "q-1")) (boot empty_store)
  = (Ok (Response 201 (created_body "order-1" "order-1" 1 "1" QUOTE_LOCKED)),
     World (Store []
              [order.mk "order-1" 1 "alice" "q-1" "buy" "EUR" "BTC" 100 (2 # 1000) 50000 1
                        QUOTE_LOCKED None 1700000000 1700000000]
              2)
           None false 0 ["insert_order"] []).
Proof. vm_compute. reflexivity. Qed.

Example createOrder_expired_quote :
  (createOrder (with_validateQuote (Ok false) calm) (alice_orders (Some "q-1"))
     (boot empty_store)).1
  = Ok (Response 410 (error_body "Quote has expired or is invalid" None)).
Proof. vm_compute. reflexivity. Qed.

(** ** Framing the handlers *)

Section frame.
Variable Rs : store → store → Prop.
Context `{!PreOrder Rs}.

Lemma frames_ret {A} (a : A) : frames Rs (mret a).
Proof. intros w. reflexivity. Qed.

Lemma frames_throw {A} m : frames Rs (@throw A m).
Proof. intros w. reflexivity. Qed.

Lemma frames_bind {A B} (m : M A) (k : A → M B) :
  frames Rs m → (∀ a, frames Rs (k a)) → frames Rs (m ≫= k).
Proof.
  intros Hm Hk w. unfold_M. specialize (Hm w).
  destruct (m w) as [[a|e] w1]; cbn in *; [|exact Hm].
  etransitivity; [exact Hm|]. apply Hk.
Qed.

Lemma frames_try_catch {A} (body : M A) handler :
  frames Rs body → (∀ e, frames Rs (handler e)) → frames Rs (try_catch body handler).
Proof.
  intros Hm Hk w. unfold try_catch. specialize (Hm w).
  destruct (body w) as [[a|e] w1]; cbn in *; [exact Hm|].
  etransitivity; [exact Hm|]. apply Hk.
Qed.

Lemma frames_try_finally {A} (body : M A) cleanup :
  frames Rs body → (∀ w, db (cleanup w) = db w) → frames Rs (try_finally body cleanup).
Proof.
  intros Hm Hc w. unfold try_finally. specialize (Hm w).
  destruct (body w) as [r w1]; cbn in *. by rewrite Hc.
Qed.

Lemma frames_pool_query {A} name l (stmt : store → outcome A * store) :
  (∀ s, Rs s (stmt s).2) → frames Rs (pool_query name l stmt).
Proof.
  intros Hstmt w. unfold pool_query. destruct l; cbn.
  - specialize (Hstmt (db w)). by destruct (stmt (db w)).
  - reflexivity.
  - specialize (Hstmt (db w)). by destruct (stmt (db w)).
Qed.

Lemma frames_logger_error m e : frames Rs (logger_error m e).
Proof. intros w. reflexivity. Qed.

Lemma frames_client_query c t : frames Rs (client_query c t).
Proof. intros w. unfold client_query. destruct t; reflexivity. Qed.

Lemma frames_pool_connect e : frames Rs (pool_connect e).
Proof. intros w. unfold pool_connect. destruct (connect e); reflexivity. Qed.

Lemma frames_pricing_validateQuote e q : frames Rs (pricing_validateQuote e q).
Proof. intros w. reflexivity. Qed.

Lemma frames_pricing_getQuote e q : frames Rs (pricing_getQuote e q).
Proof. intros w. reflexivity. Qed.

Lemma frames_get_cache : frames Rs get_cachedAnonymousUserId.
Proof. intros w. reflexivity. Qed.

Lemma frames_assign_cache id : frames Rs (assign_cachedAnonymousUserId id).
Proof. intros w. reflexivity. Qed.

Ltac frame_step :=
  first
    [ assumption
    | apply frames_bind; [|intros ?]
    | apply frames_ret
    | apply frames_throw
    | apply frames_try_catch; [|intros ?]
    | apply frames_try_finally; [|reflexivity]
    | apply frames_logger_error
    | apply frames_client_query
    | apply frames_pool_connect
    | apply frames_pricing_validateQuote
    | apply frames_pricing_getQuote
    | apply frames_get_cache
    | apply frames_assign_cache
    | apply frames_pool_query; intros; auto
    | progress (lazy zeta)
    | match goal with |- frames _ (if ?b then _ else _) => destruct b end
    | match goal with |- frames _ (match ?x with _ => _ end) => destruct x end ].

Hypothesis anon_upsert_Rs : ∀ fresh s, Rs s (anon_upsert fresh s).2.

Lemma frames_getOrCreateAnonymousUserId q : frames Rs (getOrCreateAnonymousUserId q).
Proof.
  unfold getOrCreateAnonymousUserId, getOrCreateAnonymousUserId_with, anon_query.
  pose proof (anon_upsert_Rs (q_uuid q)). repeat frame_step.
Qed.

Lemma frames_resolve_userId e req : frames Rs (resolve_userId e req).
Proof.
  unfold resolve_userId. pose proof (frames_getOrCreateAnonymousUserId (anon e)).
  repeat frame_step.
Qed.

Lemma frames_getOrder e req : frames Rs (getOrder e req).
Proof.
  unfold getOrder, orderRepository_findById.
  pose proof (frames_resolve_userId e req).
  assert (∀ s, Rs s (select_order_by_id (params_id req) s).2) by (intros; reflexivity).
  repeat frame_step.
Qed.

Lemma frames_getUserOrders e req : frames Rs (getUserOrders e req).
Proof.
  unfold getUserOrders, orderRepository_findByUserId.
  pose proof (frames_resolve_userId e req).
  apply frames_try_catch; [|intros; repeat frame_step].
  apply frames_bind; [assumption|]. intros u.
  assert (∀ s, Rs s (select_orders_by_user u s).2) by (intros; reflexivity).
  repeat frame_step.
Qed.

Hypothesis insert_order_Rs : ∀ now f s, Rs s (insert_order now f s).2.

Lemma frames_createOrder e req : frames Rs (createOrder e req).
Proof.
  unfold createOrder, orderRepository_create.
  pose proof (frames_resolve_userId e req).
  pose proof (insert_order_Rs (now e)).
  repeat frame_step.
Qed.

Lemma frames_serve c : frames Rs (serve c).
Proof.
  destruct c; cbn;
    [apply frames_createOrder | apply frames_getOrder | apply frames_getUserOrders].
Qed.

Lemma serve_all_Rs cs : ∀ w, Rs (db w) (db (serve_all cs w)).
Proof.
  induction cs as [|c cs IH]; intros w; [reflexivity|].
  cbn. etransitivity; [apply frames_serve|]. apply IH.
Qed.

End frame.

#[local] Instance same_orders_preorder : PreOrder same_orders.
Proof.
  split.
  - intros s. split; reflexivity.
  - intros s1 s2 s3 [H1 H2] [H3 H4]. split; congruence.
Qed.

#[local] Instance keeps_order_preorder x o : PreOrder (keeps_order x o).
Proof.
  split.
  - intros s H. exact H.
  - intros s1 s2 s3 H1 H2 H. apply H2, H1, H.
Qed.

Lemma anon_upsert_same_orders fresh s : same_orders s (anon_upsert fresh s).2.
Proof.
  destruct (anon_upsert_spec fresh s) as [(_ & id & -> & _)|[(_ & _ & m & ->)|(_ & _ & ->)]];
    split; reflexivity.
Qed.



(** ** [createOrder] without a [quote_id] *)

(** Whoever calls and whatever fails: without a [quote_id] no order row is
    written and the counter is not advanced. *)
Lemma missing_quote_id_no_order e req w :
  truthy_opt (quote_id req) = false →
  same_orders (db w) (db (createOrder e req w).2).
Proof.
  intros Hq. revert w. change (frames same_orders (createOrder e req)).
  unfold createOrder. rewrite Hq. cbn [negb].
  pose proof (frames_resolve_userId same_orders anon_upsert_same_orders e req).
  apply frames_bind; [apply _|apply frames_pool_connect; apply _|]. intros _.
  apply frames_try_finally; [|reflexivity].
  apply frames_try_catch; [apply _| |].
  - apply frames_bind; [apply _|assumption|]. intros u. apply frames_ret. apply _.
  - intros m. apply frames_bind; [apply _|apply frames_client_query; apply _|]. intros _.
    apply frames_bind; [apply _|apply frames_logger_error; apply _|]. intros _.
    apply frames_ret. apply _.
Qed.

(** A request without [quote_id] from a caller without a session, in a process that has
    not resolved the anonymous identity yet, on a database without the
    anonymous row: the answer is the 400, and the users table has gained the
    anonymous row, through a statement sent to the database before the body
    was looked at.  When that statement fails the answer is a 500. *)
Example missing_quote_id_anonymous :
  createOrder calm (anonymous_orders None) (boot empty_store)
  = (Ok (Response 400 (error_body "quote_id is required" None)),
     World (Store [UserRow "anon-1" ANONYMOUS_EMAIL] [] 1) (Some "anon-1") false 0
           ["anon_upsert"] [])
  ∧ (createOrder (with_anon (QueryEnv (Refused "ECONNREFUSED") "anon-1") calm)
       (anonymous_orders None) (boot empty_store)).1
    = Ok (Response 500 (error_body "Failed to create order" (Some "ECONNREFUSED"))).
Proof. split; vm_compute; reflexivity. Qed.

(** C3, as stated, does not hold: a request without [quote_id] can leave a
    new row in the users table. *)
Lemma missing_quote_id_writes_nothing_fails : ¬ missing_quote_id_writes_nothing.
Proof.
  intros H.
  destruct (H calm (anonymous_orders None) (boot empty_store) eq_refl eq_refl) as [_ Hdb].
  vm_compute in Hdb. discriminate.
Qed.

(** The caller is resolved the same whatever is checked out of the pool. *)
Lemma resolve_userId_checked_out e req n w :
  resolve_userId e req (set_checked_out n w)
  = ((resolve_userId e req w).1, set_checked_out n (resolve_userId e req w).2).
Proof.
  unfold resolve_userId. destruct (truthy_opt (user req)); [reflexivity|].
  unfold getOrCreateAnonymousUserId, getOrCreateAnonymousUserId_with, anon_query, pool_query.
  unfold_M. cbn. destruct (truthy_opt (cachedAnonymousUserId w)); [reflexivity|].
  destruct (q_link (anon e)); cbn; [| reflexivity |].
  - destruct (anon_upsert _ _) as [[[|id rows]|m] s']; reflexivity.
  - destruct (anon_upsert _ _) as [r s']; reflexivity.
Qed.

(** C3, amended. A request without [quote_id] writes no order row and does not
    advance the counter, whatever happens; once the caller is resolved it is
    answered the 400 and the database is as the resolution left it; and for
    a caller who is signed in, or whose process has the anonymous id cached,
    nothing is written and nothing is sent to the database. *)
Theorem createOrder_missing_quote_id (e : env) (req : request) (w : world) :
  truthy_opt (quote_id req) = false →
  connect e = None →
  same_orders (db w) (db (createOrder e req w).2)
  ∧ (∀ u, (resolve_userId e req w).1 = Ok u →
          answer (createOrder e req w)
          = Some (Response 400 (error_body "quote_id is required" None))
          ∧ db (createOrder e req w).2 = db (resolve_userId e req w).2)
  ∧ (truthy_opt (user req) = true ∨ truthy_opt (cachedAnonymousUserId w) = true →
     answer (createOrder e req w)
     = Some (Response 400 (error_body "quote_id is required" None))
     ∧ db (createOrder e req w).2 = db w
     ∧ sent (createOrder e req w).2 = sent w).
Proof.
  intros Hq Hc.
  split; [by apply missing_quote_id_no_order|].
  assert (∀ u, (resolve_userId e req w).1 = Ok u →
            createOrder e req w
            = (Ok (Response 400 (error_body "quote_id is required" None)),
               client_release (set_checked_out (S (checked_out w)) (resolve_userId e req w).2)))
    as Hrun.
  { intros u Hu. unfold createOrder, pool_connect. unfold_M. rewrite Hc.
    rewrite resolve_userId_checked_out, Hu, Hq. reflexivity. }
  split.
  - intros u Hu. rewrite (Hrun u Hu). split; reflexivity.
  - intros Hknown.
    assert (∃ u, resolve_userId e req w = (Ok u, w)) as [u Hu].
    { unfold resolve_userId. destruct (truthy_opt (user req)) eqn:Huser; [by eexists|].
      destruct Hknown as [?|Hcache]; [discriminate|].
      destruct (cachedAnonymousUserId w) as [id|] eqn:Hid; [|discriminate].
      exists id. by apply resolve_cached. }
    rewrite (Hrun u) by (by rewrite Hu). rewrite Hu. repeat split.
Qed.

Lemma createOrder_missing_quote_id_witness :
  answer (createOrder calm (alice_orders None) (boot empty_store))
  = Some (Response 400 (error_body "quote_id is required" None))
  ∧ db (createOrder calm (alice_orders None) (boot empty_store)).2 = empty_store.
Proof.
  assert (truthy_opt (quote_id (alice_orders None)) = false) as H1 by reflexivity.
  assert (connect calm = None) as H2 by reflexivity.
  destruct (createOrder_missing_quote_id calm (alice_orders None) (boot empty_store) H1 H2)
    as (_ & _ & Hknown).
  destruct (Hknown (or_introl eq_refl)) as (Hanswer & Hdb & _).
  split; [exact Hanswer | exact Hdb].
Defined.

(** ** [createOrder] and its transaction *)

(** C4. A valid request whose insert goes through and whose [COMMIT] on
    [client] throws: the caller is answered the 500 and the order row
    stays in the table, with its number drawn.  And when [client] is broken,
    so that [BEGIN] throws and then [ROLLBACK] in the catch block throws as
    well, the handler rejects and no response is sent at all. *)
Theorem createOrder_failure_after_insert_keeps_order :
  createOrder (with_commit_throws (Some "Connection terminated unexpectedly") calm)
    (alice_orders (Some "q-1")) (boot empty_store)
  = (Ok (Response 500 (error_body "Failed to create order"
                         (Some "Connection terminated unexpectedly"))),
     World (Store []
              [order.mk "order-1" 1 "alice" "q-1" "buy" "EUR" "BTC" 100 (2 # 1000) 50000 1
                        QUOTE_LOCKED None 1700000000 1700000000]
              2)
           None false 0 ["insert_order"]
           [LogError "Error creating order" "Connection terminated unexpectedly"])
  ∧ answer (createOrder
              (with_rollback_throws (Some "Connection terminated unexpectedly")
                 (with_begin_throws (Some "Connection terminated unexpectedly") calm))
              (alice_orders (Some "q-1")) (boot empty_store))
    = None.
Proof. split; vm_compute; reflexivity. Qed.

(** ** What the error responses disclose *)

(** C9. With [NODE_ENV] set to production, the 500 of each of the three handlers
    carries the message of the error it caught, here the ones of the pricing
    service and of the database driver; the error middleware of server.ts
    leaves the message out. *)
Theorem handlers_disclose_error_messages :
  NODE_ENV calm = Some "production"
  ∧ answer (createOrder
              (with_validateQuote (Throw "connect ECONNREFUSED 10.0.3.7:6379") calm)
              (alice_orders (Some "q-1")) (boot empty_store))
    = Some (Response 500 (error_body "Failed to create order"
                            (Some "connect ECONNREFUSED 10.0.3.7:6379")))
  ∧ answer (getOrder
              (with_find_link (Refused "password authentication failed for user exury") calm)
              (alice_orders None) (boot empty_store))
    = Some (Response 500 (error_body "Failed to get order"
                            (Some "password authentication failed for user exury")))
  ∧ answer (getUserOrders
              (with_find_link (Refused "password authentication failed for user exury") calm)
              (alice_orders None) (boot empty_store))
    = Some (Response 500 (error_body "Failed to get orders"
                            (Some "password authentication failed for user exury")))
  ∧ disclosed (error_middleware calm "connect ECONNREFUSED 10.0.3.7:6379") = None.
Proof. repeat split; vm_compute; reflexivity. Qed.

(** In any surroundings: what [createOrder] catches it sends. *)
Lemma createOrder_discloses e req w m :
  connect e = None → truthy_opt (user req) = true → truthy_opt (quote_id req) = true →
  validateQuote e = Throw m → rollback_throws e = None →
  (createOrder e req w).1 = Ok (Response 500 (error_body "Failed to create order" (Some m))).
Proof.
  intros Hc Hu Hq Hv Hr.
  unfold createOrder, pool_connect, resolve_userId, pricing_validateQuote, client_query.
  unfold_M. rewrite Hc, Hu, Hq, Hv, Hr. reflexivity.
Qed.

(** ** [getOrder] *)



Lemma resolve_userId_same_orders e req w :
  orders (db (resolve_userId e req w).2) = orders (db w).
Proof. apply (frames_resolve_userId same_orders anon_upsert_same_orders e req w). Qed.


(** A read that is answered with an order found it under that key, and it
    belongs to the identity the caller resolved to. *)
Lemma getOrder_200 e req w v :
  answer (getOrder e req w) = Some (Response 200 (order_body v)) →
  ∃ u w1 o, resolve_userId e req w = (Ok u, w1)
            ∧ order_by_id (params_id req) (db w) = Some o
            ∧ order.userId o = u ∧ v = view_of o.
Proof.
  pose proof (resolve_userId_same_orders e req w) as Hsame.
  unfold answer, getOrder, orderRepository_findById, pool_query, select_order_by_id, order_by_id.
  unfold_M. destruct (resolve_userId e req w) as [[u|m] w1]; cbn in *; [|discriminate].
  destruct (find_link e); cbn; try discriminate. rewrite Hsame.
  destruct (head (filter _ (orders (db w)))) as [o|]; cbn; [|discriminate].
  destruct (bool_decide (order.userId o = u)) eqn:Hu; cbn; [|discriminate].
  intros [= <-]. apply bool_decide_eq_true_1 in Hu. eauto 10.
Qed.


Lemma order_by_id_Some x s o : order_by_id x s = Some o → o ∈ orders s ∧ order.id o = x.
Proof.
  unfold order_by_id. intros H. apply head_Some_elem_of in H.
  apply list_elem_of_filter in H as [Hid Hin]. auto.
Qed.



(** ** From quote to order and back *)

Lemma insert_order_Ok now f s o s' :
  insert_order now f s = (Ok o, s') →
  o = order.mk (fields.id f) (order_number_seq s) (fields.userId f) (fields.quoteId f)
               (fields.type f) (fields.base f) (fields.asset f) (fields.fiatAmount f)
               (fields.cryptoAmount f) (fields.exchangeRate f) (fields.fee f)
               (fields.status f) None now now
  ∧ orders s' = orders s ++ [o]
  ∧ filter (λ o', order.id o' = fields.id f) (orders s') = [o].
Proof.
  unfold insert_order, nextval.
  destruct (negb (in_integer_range (order_number_seq s))); [discriminate|].
  destruct (decide (fields.id f ∈ order.id <$> orders s)) as [Hid|Hid].
  { rewrite bool_decide_eq_true_2 by exact Hid. discriminate. }
  rewrite bool_decide_eq_false_2 by exact Hid.
  destruct (bool_decide _); [discriminate|].
  intros [= <- <-]. cbn. repeat split.
  rewrite filter_app, filter_cons, filter_nil. cbn. rewrite decide_True by reflexivity.
  assert (filter (λ o', order.id o' = fields.id f) (orders s) = []) as ->; [|reflexivity].
  destruct (filter _ (orders s)) as [|o os] eqn:Hf; [reflexivity|]. exfalso.
  assert (o ∈ filter (λ o', order.id o' = fields.id f) (orders s)) as Hin
    by (rewrite Hf; apply list_elem_of_here).
  apply list_elem_of_filter in Hin as [Ho Hin]. apply Hid. rewrite <- Ho.
  apply list_elem_of_fmap. eauto.
Qed.





(** ** The handlers as creation attempts

    Whatever requests a process serves, its orders table and counter move as
    by a sequence of inserts, so that what holds of those holds of it. *)

Lemma insert_order_ext now f s t :
  orders s = orders t → order_number_seq s = order_number_seq t →
  (insert_order now f s).1 = (insert_order now f t).1
  ∧ orders (insert_order now f s).2 = orders (insert_order now f t).2
  ∧ order_number_seq (insert_order now f s).2 = order_number_seq (insert_order now f t).2.
Proof.
  intros Ho Hn. unfold insert_order, nextval. rewrite Ho, Hn.
  destruct (negb (in_integer_range (order_number_seq t))); [by cbn|].
  destruct (bool_decide (fields.id f ∈ order.id <$> orders t)); [by cbn|].
  destruct (bool_decide (order_number_seq t ∈ order.orderNumber <$> orders t)); by cbn.
Qed.

Lemma create_all_ext attempts : ∀ s t,
  orders s = orders t → order_number_seq s = order_number_seq t →
  orders (create_all attempts s).2 = orders (create_all attempts t).2
  ∧ order_number_seq (create_all attempts s).2 = order_number_seq (create_all attempts t).2.
Proof.
  induction attempts as [|a attempts IH]; intros s t Ho Hn; [by cbn|].
  rewrite !create_all_cons. cbn [snd]. unfold create_one.
  destruct (insert_order_ext a.1 a.2 s t Ho Hn) as (_ & Ho' & Hn').
  destruct (insert_order a.1 a.2 s) as [[o|m] s'], (insert_order a.1 a.2 t) as [[o'|m'] t'];
    cbn in *; by apply IH.
Qed.

Lemma create_all_app attempts1 attempts2 s :
  (create_all (attempts1 ++ attempts2) s).2
  = (create_all attempts2 (create_all attempts1 s).2).2.
Proof.
  revert s. induction attempts1 as [|a attempts1 IH]; intros s; [reflexivity|].
  rewrite <- app_comm_cons, !create_all_cons. cbn [snd]. apply IH.
Qed.

#[local] Instance attempted_preorder : PreOrder attempted.
Proof.
  split.
  - intros s. exists []. split; reflexivity.
  - intros s1 s2 s3 (a1 & Ho1 & Hn1) (a2 & Ho2 & Hn2). exists (a1 ++ a2).
    rewrite create_all_app.
    destruct (create_all_ext a2 s2 (create_all a1 s1).2 Ho1 Hn1) as [Ho Hn].
    split; congruence.
Qed.

Lemma anon_upsert_attempted fresh s : attempted s (anon_upsert fresh s).2.
Proof.
  exists []. destruct (anon_upsert_same_orders fresh s) as [Ho Hn]. split; assumption.
Qed.

Lemma insert_order_attempted now f s : attempted s (insert_order now f s).2.
Proof.
  exists [(now, f)]. rewrite create_all_cons. cbn [snd create_all]. unfold create_one. cbn [fst snd].
  destruct (insert_order now f s) as [[o|m] s']; split; reflexivity.
Qed.

(** Any requests served, one after the other: the numbers of the orders
    table stay distinct. *)
Lemma served_order_numbers_distinct (cs : list call) (w : world) :
  NoDup (order_numbers (orders (db w))) →
  NoDup (order_numbers (orders (db (serve_all cs w)))).
Proof.
  intros Hnd.
  destruct (serve_all_Rs attempted anon_upsert_attempted insert_order_attempted cs w)
    as (attempts & -> & _).
  by apply create_all_NoDup.
Qed.

(** ** One caller alone

    Run without interruption, the three pieces of a call are the call. *)
Lemma alone_is_getOrCreateAnonymousUserId (e : query_env) (w : world) (p : nat) :
  let c := Concurrent.run [Concurrent.Enter 0; Concurrent.Exec 0 e; Concurrent.Resume 0]
             (Concurrent.Config (db w)
                (from_option (λ id, {[p := id]}) ∅ (cachedAnonymousUserId w))
                [Concurrent.Caller p Concurrent.Called]) in
  Concurrent.callers c
  = [Concurrent.Caller p (Concurrent.Returned (getOrCreateAnonymousUserId e w).1)]
  ∧ Concurrent.database c = db (getOrCreateAnonymousUserId e w).2
  ∧ Concurrent.caches c !! p = cachedAnonymousUserId (getOrCreateAnonymousUserId e w).2.
Proof.
  unfold getOrCreateAnonymousUserId, getOrCreateAnonymousUserId_with, anon_query, pool_query.
  unfold_M. cbn. unfold Concurrent.enter.
  destruct (cachedAnonymousUserId w) as [id|] eqn:Hc; cbn.
  - rewrite lookup_singleton_eq. cbn. destruct (truthy id) eqn:Ht; cbn.
    + rewrite lookup_singleton_eq. auto.
    + unfold Concurrent.exec. rewrite !anon_upsert_on_current.
      destruct (q_link e); cbn.
      * destruct (anon_upsert (q_uuid e) (db w)) as [[[|id' rows]|m] s']; cbn;
          rewrite ?lookup_insert_eq, ?lookup_singleton_eq; auto.
      * rewrite lookup_singleton_eq. auto.
      * destruct (anon_upsert (q_uuid e) (db w)) as [r s']; cbn.
        rewrite lookup_singleton_eq. auto.
  - rewrite lookup_empty. cbn. unfold Concurrent.exec. rewrite !anon_upsert_on_current.
    destruct (q_link e); cbn.
    + destruct (anon_upsert (q_uuid e) (db w)) as [[[|id' rows]|m] s']; cbn;
        rewrite ?lookup_insert_eq, ?lookup_empty; auto.
    + rewrite lookup_empty. auto.
    + destruct (anon_upsert (q_uuid e) (db w)) as [r s']; cbn.
      rewrite lookup_empty. auto.
Qed.

(** A call that starts once the process has the id does not reach the
    database, whatever else is in flight. *)
Lemma enter_after_success (c : Concurrent.config) (t p : nat) (id : string) :
  Concurrent.callers c !! t = Some (Concurrent.Caller p Concurrent.Called) →
  Concurrent.caches c !! p = Some id → truthy id = true →
  Concurrent.callers (Concurrent.step (Concurrent.Enter t) c) !! t
  = Some (Concurrent.Caller p (Concurrent.Returned (Ok id)))
  ∧ Concurrent.database (Concurrent.step (Concurrent.Enter t) c) = Concurrent.database c.
Proof.
  intros Ht Hc Hid. rewrite (step_enter t p c Ht), Hc. unfold Concurrent.enter. cbn.
  rewrite Hid. split; [|reflexivity].
  apply list_lookup_insert_eq. by eapply lookup_lt_Some.
Qed.

(** When nothing but the insert can fail, [createOrder] is all or nothing:
    it answers, and either with the 201 or with the orders as they were. *)
Lemma createOrder_all_or_nothing e req w :
  connect e = None → create_link e = Delivered →
  commit_throws e = None → rollback_throws e = None →
  ∃ resp, answer (createOrder e req w) = Some resp
          ∧ (status resp = 201%nat ∨ orders (db (createOrder e req w).2) = orders (db w)).
Proof.
  intros Hc Hl Hcommit Hrollback.
  pose proof (resolve_userId_same_orders e req (set_checked_out (S (checked_out w)) w)) as Hsame.
  unfold answer, createOrder, pool_connect, orderRepository_create, client_query,
    pricing_validateQuote, pricing_getQuote, pool_query. unfold_M.
  rewrite Hc, Hl, Hcommit, Hrollback. cbn.
  destruct (resolve_userId e req _) as [[u|m] w2]; cbn in *; [|eauto].
  destruct (truthy_opt (quote_id req)); cbn; [|eauto].
  destruct (validateQuote e) as [[|]|m]; cbn; [|eauto|eauto].
  destruct (getQuote e) as [[q|]|m]; cbn; [|eauto|eauto].
  destruct (begin_throws e); cbn; [eauto|].
  match goal with |- context [insert_order ?n ?f ?s] =>
    destruct (insert_order_spec n f s) as (_ & _ & Hcase);
    destruct (insert_order n f s) as [[o|m] s'] end; cbn in *; [eauto|].
  destruct Hcase as [(o & Ho & _)|[_ Ho]]; [discriminate|].
  eexists. split; [reflexivity|]. right. cbn. congruence.
Qed.

(** * Further properties of the handlers *)

(** ** Framing the process state *)

Section wframe.
Variable R : world → world → Prop.
Context `{!PreOrder R}.

Lemma wframes_ret {A} (a : A) : wframes R (mret a).
Proof. intros w. reflexivity. Qed.

Lemma wframes_throw {A} m : wframes R (@throw A m).
Proof. intros w. reflexivity. Qed.

Lemma wframes_bind {A B} (m : M A) (k : A → M B) :
  wframes R m → (∀ a, wframes R (k a)) → wframes R (m ≫= k).
Proof.
  intros Hm Hk w. unfold_M. specialize (Hm w).
  destruct (m w) as [[a|e] w1]; cbn in *; [|exact Hm].
  etransitivity; [exact Hm|]. apply Hk.
Qed.

Lemma wframes_try_catch {A} (body : M A) handler :
  wframes R body → (∀ e, wframes R (handler e)) → wframes R (try_catch body handler).
Proof.
  intros Hm Hk w. unfold try_catch. specialize (Hm w).
  destruct (body w) as [[a|e] w1]; cbn in *; [exact Hm|].
  etransitivity; [exact Hm|]. apply Hk.
Qed.

Lemma wframes_pricing_validateQuote e q : wframes R (pricing_validateQuote e q).
Proof. intros w. reflexivity. Qed.

Lemma wframes_pricing_getQuote e q : wframes R (pricing_getQuote e q).
Proof. intros w. reflexivity. Qed.

Hypothesis R_set_db : ∀ s w, R w (set_db s w).
Hypothesis R_add_sent : ∀ name w, R w (add_sent name w).
Hypothesis R_add_logged : ∀ l w, R w (add_logged l w).
Hypothesis R_set_in_transaction : ∀ b w, R w (set_in_transaction b w).

Lemma wframes_pool_query {A} name l (stmt : store → outcome A * store) :
  wframes R (pool_query name l stmt).
Proof.
  intros w. unfold pool_query. destruct l; cbn.
  - destruct (stmt (db w)). cbn. etransitivity; [apply (R_add_sent name)|apply R_set_db].
  - apply R_add_sent.
  - destruct (stmt (db w)). cbn. etransitivity; [apply (R_add_sent name)|apply R_set_db].
Qed.

Lemma wframes_logger_error m e : wframes R (logger_error m e).
Proof. intros w. apply R_add_logged. Qed.

Lemma wframes_client_query c t : wframes R (client_query c t).
Proof. intros w. unfold client_query. destruct t; [reflexivity|apply R_set_in_transaction]. Qed.

Hypothesis R_resolve : ∀ q, wframes R (getOrCreateAnonymousUserId q).

Lemma wframes_resolve_userId e req : wframes R (resolve_userId e req).
Proof.
  unfold resolve_userId. destruct (truthy_opt (user req)); [apply wframes_ret|apply R_resolve].
Qed.

Ltac wframe_step :=
  first
    [ assumption
    | apply wframes_resolve_userId
    | apply wframes_pool_query
    | apply wframes_bind; [|intros ?]
    | apply wframes_ret
    | apply wframes_throw
    | apply wframes_try_catch; [|intros ?]
    | apply wframes_logger_error
    | apply wframes_client_query
    | apply wframes_pricing_validateQuote
    | apply wframes_pricing_getQuote
    | progress (lazy zeta)
    | match goal with |- wframes _ (if ?b then _ else _) => destruct b end
    | match goal with |- wframes _ (match ?x with _ => _ end) => destruct x end ].

Lemma wframes_getOrder e req : wframes R (getOrder e req).
Proof. unfold getOrder, orderRepository_findById. repeat wframe_step. Qed.

Lemma wframes_getUserOrders e req : wframes R (getUserOrders e req).
Proof. unfold getUserOrders, orderRepository_findByUserId. repeat wframe_step. Qed.

(** What [R] makes of a client taken from the pool and given back. *)
Hypothesis R_bracket :
  ∀ w w', R (set_checked_out (S (checked_out w)) w) w' → R w (client_release w').

Lemma wframes_createOrder e req : wframes R (createOrder e req).
Proof.
  intros w. unfold createOrder.
  match goal with |- R w ((_ ≫= λ _, try_finally ?b _) w).2 =>
    assert (wframes R b) as Hbody
      by (unfold orderRepository_create; repeat wframe_step);
    set (body := b) in * end.
  clearbody body.
  unfold mbind, M_bind, bind, pool_connect, try_finally.
  destruct (connect e); [reflexivity|].
  specialize (Hbody (set_checked_out (S (checked_out w)) w)).
  destruct (body _) as [r w']. cbn in *. by apply R_bracket.
Qed.

Lemma wframes_serve c : wframes R (serve c).
Proof.
  destruct c; cbn;
    [apply wframes_createOrder | apply wframes_getOrder | apply wframes_getUserOrders].
Qed.

Lemma serve_all_R cs : ∀ w, R w (serve_all cs w).
Proof.
  induction cs as [|c cs IH]; intros w; [reflexivity|].
  cbn. etransitivity; [apply wframes_serve|]. apply IH.
Qed.

End wframe.

#[local] Instance same_checked_out_preorder : PreOrder same_checked_out.
Proof. split; [intros w; reflexivity | intros w1 w2 w3 H1 H2; unfold same_checked_out in *; congruence]. Qed.

#[local] Instance cache_kept_preorder : PreOrder cache_kept.
Proof.
  split; [intros w id H _; exact H|].
  intros w1 w2 w3 H1 H2 id Hid Ht. apply H2; [|exact Ht]. by apply H1.
Qed.

Lemma getOrCreateAnonymousUserId_checked_out q :
  wframes same_checked_out (getOrCreateAnonymousUserId q).
Proof.
  intros w. unfold same_checked_out, getOrCreateAnonymousUserId.
  destruct (truthy_opt (cachedAnonymousUserId w)) eqn:Ht.
  - destruct (cachedAnonymousUserId w) as [id|] eqn:Hid; [|discriminate].
    by rewrite (resolve_cached _ w id Hid Ht).
  - rewrite (resolve_uncached _ w Ht). unfold anon_query, pool_query.
    destruct (q_link q); cbn; [| reflexivity |];
      destruct (anon_upsert (q_uuid q) (db w)) as [[[|? ?]|?] ?]; reflexivity.
Qed.

Lemma getOrCreateAnonymousUserId_cache_kept q :
  wframes cache_kept (getOrCreateAnonymousUserId q).
Proof.
  intros w id Hid Ht. unfold getOrCreateAnonymousUserId.
  by rewrite (resolve_cached _ w id Hid Ht).
Qed.

(** Whatever the request and whatever fails, also when the handler rejects:
    [createOrder] leaves as many clients checked out of the pool as it
    found. *)
Theorem createOrder_gives_client_back (e : env) (req : request) (w : world) :
  checked_out (createOrder e req w).2 = checked_out w.
Proof.
  apply (wframes_createOrder same_checked_out); try (intros; reflexivity).
  - apply getOrCreateAnonymousUserId_checked_out.
  - intros w0 w' H. unfold same_checked_out in *. cbn in *. rewrite H. reflexivity.
Qed.

(** Once a process holds a non-empty anonymous id, no request it serves, of
    whatever kind and with whatever outcome, changes or clears it. *)
Theorem cached_identity_is_stable (cs : list call) (w : world) (id : string) :
  cachedAnonymousUserId w = Some id → truthy id = true →
  cachedAnonymousUserId (serve_all cs w) = Some id.
Proof.
  intros Hid Ht.
  apply (serve_all_R cache_kept) with (w := w) (cs := cs); try (intros ? ? ? H ?; exact H);
    try assumption.
  - apply getOrCreateAnonymousUserId_cache_kept.
  - intros w0 w' H id' Hid' Ht'. by apply H.
Qed.

Lemma cached_identity_is_stable_witness :
  cachedAnonymousUserId
    (serve_all [CreateOrder calm (anonymous_orders None);
                GetOrder (with_anon (QueryEnv (Refused "ECONNREFUSED") "anon-9") quote_gone)
                         (anonymous_orders None);
                CreateOrder other_quote (anonymous_orders (Some "q-2"))]
               (set_cache (Some "anon-1") (boot empty_store)))
  = Some "anon-1".
Proof. apply cached_identity_is_stable; reflexivity. Defined.

(** ** Which requests are answered, and how *)

Ltac run_createOrder :=
  unfold createOrder, pool_connect, orderRepository_create, client_query,
    pricing_validateQuote, pricing_getQuote, pool_query; unfold_M; cbn.
Ltac run_getOrder :=
  unfold getOrder, orderRepository_findById, pool_query, select_order_by_id; unfold_M; cbn.
Ltac run_getUserOrders :=
  unfold getUserOrders, orderRepository_findByUserId, pool_query, select_orders_by_user;
  unfold_M; cbn.
Ltac all_cases := repeat (case_match; simplify_eq/=).
Ltac find_elem := repeat first [apply list_elem_of_here | apply list_elem_of_further].

(** [createOrder], path by path. *)
Lemma createOrder_unfold e req w :
  createOrder e req w =
  match connect e with
  | Some m => (Throw m, w)
  | None =>
      match resolve_userId e req (set_checked_out (S (checked_out w)) w) with
      | (Throw m, w1) => createOrder_caught e m w1
      | (Ok userId, w1) =>
          if negb (truthy_opt (quote_id req))
          then (Ok (Response 400 (error_body "quote_id is required" None)), client_release w1)
          else
            match validateQuote e with
            | Throw m => createOrder_caught e m w1
            | Ok false =>
                (Ok (Response 410 (error_body "Quote has expired or is invalid" None)),
                 client_release w1)
            | Ok true =>
                match getQuote e with
                | Throw m => createOrder_caught e m w1
                | Ok None =>
                    (Ok (Response 404 (error_body "Quote not found" None)), client_release w1)
                | Ok (Some quote) =>
                    match begin_throws e with
                    | Some m => createOrder_caught e m w1
                    | None =>
                        match orderRepository_create e
                                (fields.mk (uuidv4 e) userId (default "" (quote_id req)) "buy"
                                   (quote.base quote) (quote.asset quote) (quote.amount quote)
                                   (quote.cryptoAmount quote) (quote.exchangeRate quote)
                                   (quote.fee quote) QUOTE_LOCKED)
                                (set_in_transaction true w1) with
                        | (Throw m, w2) => createOrder_caught e m w2
                        | (Ok order, w2) =>
                            match commit_throws e with
                            | Some m => createOrder_caught e m w2
                            | None =>
                                (Ok (Response 201
                                       (created_body (uuidv4 e) (uuidv4 e)
                                          (order.orderNumber order)
                                          (pretty (order.orderNumber order)) QUOTE_LOCKED)),
                                 client_release (set_in_transaction false w2))
                            end
                        end
                    end
                end
            end
      end
  end.
Proof.
  unfold createOrder_caught, createOrder, pool_connect, client_query,
    pricing_validateQuote, pricing_getQuote. unfold_M.
  destruct (connect e); [reflexivity|]. cbn -[orderRepository_create resolve_userId].
  destruct (resolve_userId e req _) as [[u|m] w1]; cbn -[orderRepository_create];
    [|destruct (rollback_throws e); reflexivity].
  destruct (truthy_opt (quote_id req)); cbn -[orderRepository_create]; [|reflexivity].
  destruct (validateQuote e) as [[|]|m]; cbn -[orderRepository_create];
    [|reflexivity|destruct (rollback_throws e); reflexivity].
  destruct (getQuote e) as [[q|]|m]; cbn -[orderRepository_create];
    [|reflexivity|destruct (rollback_throws e); reflexivity].
  destruct (begin_throws e); cbn -[orderRepository_create];
    [destruct (rollback_throws e); reflexivity|].
  destruct (orderRepository_create e _ _) as [[o|m] w2]; cbn;
    [|destruct (rollback_throws e); reflexivity].
  destruct (commit_throws e); cbn; [destruct (rollback_throws e); reflexivity|reflexivity].
Qed.

Ltac createOrder_cases e req w :=
  rewrite (createOrder_unfold e req w); unfold createOrder_caught;
  destruct (connect e) eqn:?;
    [|destruct (resolve_userId e req _) as [[?u|?m] ?w1] eqn:?;
      [destruct (truthy_opt (quote_id req)) eqn:?; cbn [negb];
       [destruct (validateQuote e) as [[|]|?m] eqn:?;
        [destruct (getQuote e) as [[?q|]|?m] eqn:?;
         [destruct (begin_throws e) eqn:?;
          [|destruct (orderRepository_create e _ _) as [[?o|?m] ?w2] eqn:?;
            [destruct (commit_throws e) eqn:?|]]
         | |]
        | |]
       |]
      |]];
  try destruct (rollback_throws e) eqn:?; cbn [fst snd].

(** [createOrder] leaves a request without any response only when
    [pool.connect()] throws or [ROLLBACK] throws in the catch block; every
    response it sends has one of five status codes. *)
Theorem createOrder_unanswered_only_if (e : env) (req : request) (w : world) :
  (answer (createOrder e req w) = None → connect e ≠ None ∨ rollback_throws e ≠ None)
  ∧ (∀ resp, answer (createOrder e req w) = Some resp →
             status resp ∈ [201; 400; 404; 410; 500]%nat).
Proof.
  unfold answer. createOrder_cases e req w; cbn; (split; [|intros resp]); intros; simplify_eq;
    try done; try (left; congruence); try (right; congruence); cbn; find_elem.
Qed.

(** [getOrder] and [getUserOrders] answer every request, whatever fails:
    the former with 200, 403, 404 or 500, the latter with 200 or 500. *)
Theorem reads_always_answer (e : env) (req : request) (w : world) :
  (∃ resp, answer (getOrder e req w) = Some resp ∧ status resp ∈ [200; 403; 404; 500]%nat)
  ∧ (∃ resp, answer (getUserOrders e req w) = Some resp ∧ status resp ∈ [200; 500]%nat).
Proof.
  unfold answer. split.
  - run_getOrder. all_cases; eexists; (split; [reflexivity|]); cbn; find_elem.
  - run_getUserOrders. all_cases; eexists; (split; [reflexivity|]); cbn; find_elem.
Qed.

(** A request with a [quote_id], once a client is checked out and the caller
    resolved: when the pricing service says the quote is not valid the answer
    is the 410, and when it says it is valid but then has no such quote the
    answer is the 404.  Either way no transaction is begun and nothing is
    sent to the database after the resolution of the caller. *)
Theorem createOrder_rejected_quote (e : env) (req : request) (w : world) (u : string) :
  connect e = None →
  (resolve_userId e req w).1 = Ok u →
  truthy_opt (quote_id req) = true →
  (validateQuote e = Ok false →
   answer (createOrder e req w)
   = Some (Response 410 (error_body "Quote has expired or is invalid" None))
   ∧ db (createOrder e req w).2 = db (resolve_userId e req w).2
   ∧ sent (createOrder e req w).2 = sent (resolve_userId e req w).2
   ∧ in_transaction (createOrder e req w).2 = in_transaction (resolve_userId e req w).2)
  ∧ (validateQuote e = Ok true → getQuote e = Ok None →
     answer (createOrder e req w)
     = Some (Response 404 (error_body "Quote not found" None))
     ∧ db (createOrder e req w).2 = db (resolve_userId e req w).2
     ∧ sent (createOrder e req w).2 = sent (resolve_userId e req w).2
     ∧ in_transaction (createOrder e req w).2 = in_transaction (resolve_userId e req w).2).
Proof.
  intros Hc Hu Hq. split.
  - intros Hv. unfold answer, createOrder, pool_connect, pricing_validateQuote. unfold_M.
    rewrite Hc, resolve_userId_checked_out, Hu, Hq, Hv. cbn. auto.
  - intros Hv Hg.
    unfold answer, createOrder, pool_connect, pricing_validateQuote, pricing_getQuote. unfold_M.
    rewrite Hc, resolve_userId_checked_out, Hu, Hq, Hv, Hg. cbn. auto.
Qed.

Lemma createOrder_rejected_quote_witness :
  answer (createOrder quote_gone (alice_orders (Some "q-1")) (boot empty_store))
  = Some (Response 410 (error_body "Quote has expired or is invalid" None))
  ∧ db (createOrder quote_gone (alice_orders (Some "q-1")) (boot empty_store)).2 = empty_store.
Proof.
  assert (connect quote_gone = None) as H1 by reflexivity.
  assert ((resolve_userId quote_gone (alice_orders (Some "q-1")) (boot empty_store)).1
          = Ok "alice") as H2 by reflexivity.
  assert (truthy_opt (quote_id (alice_orders (Some "q-1"))) = true) as H3 by reflexivity.
  destruct (createOrder_rejected_quote quote_gone (alice_orders (Some "q-1"))
              (boot empty_store) "alice" H1 H2 H3) as [H410 _].
  destruct (H410 eq_refl) as (Hanswer & Hdb & _).
  split; [exact Hanswer | exact Hdb].
Defined.

Lemma orderRepository_create_Ok e f w o w2 :
  orderRepository_create e f w = (Ok o, w2) →
  filter (λ o', order.id o' = fields.id f) (orders (db w2)) = [o]
  ∧ o = order.mk (fields.id f) (order.orderNumber o) (fields.userId f) (fields.quoteId f)
                 (fields.type f) (fields.base f) (fields.asset f) (fields.fiatAmount f)
                 (fields.cryptoAmount f) (fields.exchangeRate f) (fields.fee f)
                 (fields.status f) None (now e) (now e)
  ∧ in_integer_range (order.orderNumber o) = true
  ∧ in_transaction w2 = in_transaction w.
Proof.
  unfold orderRepository_create, pool_query. intros H.
  destruct (create_link e); cbn in H.
  - destruct (insert_order (now e) f (db w)) as [r s'] eqn:Hins. simplify_eq.
    destruct (insert_order_Ok _ _ _ _ _ Hins) as (Ho & _ & Hf).
    destruct (insert_order_spec (now e) f (db w))
      as (_ & _ & [(o' & Ho' & _ & _ & _ & _ & _ & Hr)|[[m Hm] _]]);
      rewrite Hins in *; cbn in *; [|discriminate].
    injection Ho' as <-. repeat split; try assumption. rewrite Ho at 1. by rewrite Ho.
  - discriminate.
  - destruct (insert_order (now e) f (db w)). discriminate.
Qed.

(** What sits behind a 201: the response names the id drawn for the order
    twice, its number, that number in decimal as the reference, and the
    initial status; the table holds exactly one row under that id, with that
    number, within the range of the column, locked to the quote of the
    request, without a payment; and [client] is out of its transaction. *)
Theorem created_response_matches_row (e : env) (req : request) (w : world) (resp : response) :
  answer (createOrder e req w) = Some resp → status resp = 201%nat →
  ∃ o,
    body resp = created_body (uuidv4 e) (uuidv4 e) (order.orderNumber o)
                             (pretty (order.orderNumber o)) QUOTE_LOCKED
    ∧ filter (λ o', order.id o' = uuidv4 e) (orders (db (createOrder e req w).2)) = [o]
    ∧ order.id o = uuidv4 e
    ∧ order.quoteId o = default "" (quote_id req)
    ∧ order.status o = QUOTE_LOCKED
    ∧ order.paymentId o = None
    ∧ in_integer_range (order.orderNumber o) = true
    ∧ in_transaction (createOrder e req w).2 = false.
Proof.
  unfold answer. createOrder_cases e req w; cbn; intros; simplify_eq; cbn in *; try discriminate.
  all: match goal with H : orderRepository_create _ _ _ = _ |- _ =>
         destruct (orderRepository_create_Ok _ _ _ _ _ H) as (Hf & Ho & Hr & _) end;
       exists o; cbn in Hf; rewrite Hf; rewrite Ho; cbn; repeat split; by rewrite Ho in Hr.
Qed.

Lemma created_response_matches_row_witness :
  ∃ o, filter (λ o', order.id o' = "order-1")
         (orders (db (createOrder calm (alice_orders (Some "q-1")) (boot empty_store)).2)) = [o]
       ∧ order.orderNumber o = 1.
Proof.
  destruct (created_response_matches_row calm (alice_orders (Some "q-1")) (boot empty_store)
              (Response 201 (created_body "order-1" "order-1" 1 "1" QUOTE_LOCKED)))
    as (o & Hbody & Hrow & _); [vm_compute; reflexivity | reflexivity |].
  exists o. split; [exact Hrow|]. cbn in Hbody. congruence.
Defined.

Lemma createOrder_all_or_nothing_witness :
  ∃ resp,
    answer (createOrder calm (alice_orders (Some "q-1"))
              (createOrder calm (alice_orders (Some "q-1")) (boot empty_store)).2) = Some resp
    ∧ status resp = 500%nat
    ∧ length (orders (db (createOrder calm (alice_orders (Some "q-1"))
                (createOrder calm (alice_orders (Some "q-1")) (boot empty_store)).2).2)) = 1%nat.
Proof.
  set (w := (createOrder calm (alice_orders (Some "q-1")) (boot empty_store)).2).
  destruct (createOrder_all_or_nothing calm (alice_orders (Some "q-1")) w
              eq_refl eq_refl eq_refl eq_refl) as (resp & Hanswer & Hcase).
  exists resp. split; [exact Hanswer|].
  assert (resp = Response 500 (error_body "Failed to create order"
            (Some ("duplicate key value violates unique constraint "
                   ++ quoted "orders_pkey")%string))) as ->
    by (vm_compute in Hanswer; injection Hanswer as <-; reflexivity).
  split; [reflexivity|].
  destruct Hcase as [Hs|Ho]; [discriminate|]. rewrite Ho. reflexivity.
Defined.

(** A 500 of any of the three handlers carries the message of the error the
    handler caught, and that same message is what the handler logged last. *)
Theorem server_errors_are_logged (e : env) (req : request) (w : world) (b : json) :
  (answer (createOrder e req w) = Some (Response 500 b) →
   ∃ m, b = error_body "Failed to create order" (Some m)
        ∧ head (logged (createOrder e req w).2) = Some (LogError "Error creating order" m))
  ∧ (answer (getOrder e req w) = Some (Response 500 b) →
     ∃ m, b = error_body "Failed to get order" (Some m)
          ∧ head (logged (getOrder e req w).2) = Some (LogError "Error getting order" m))
  ∧ (answer (getUserOrders e req w) = Some (Response 500 b) →
     ∃ m, b = error_body "Failed to get orders" (Some m)
          ∧ head (logged (getUserOrders e req w).2)
            = Some (LogError "Error getting user orders" m)).
Proof.
  unfold answer. repeat split.
  - createOrder_cases e req w; cbn; intros; simplify_eq; eexists; split; reflexivity.
  - run_getOrder. all_cases; intros; simplify_eq/=; eexists; split; reflexivity.
  - run_getUserOrders. all_cases; intros; simplify_eq/=; eexists; split; reflexivity.
Qed.

(** ** Reads *)

(** Neither read touches the orders table or the counter; for a caller who
    is signed in they leave the whole database as it is. *)
Theorem reads_leave_orders_alone (e : env) (req : request) (w : world) :
  same_orders (db w) (db (getOrder e req w).2)
  ∧ same_orders (db w) (db (getUserOrders e req w).2)
  ∧ (truthy_opt (user req) = true →
     db (getOrder e req w).2 = db w ∧ db (getUserOrders e req w).2 = db w).
Proof.
  split; [apply (frames_getOrder same_orders anon_upsert_same_orders)|].
  split; [apply (frames_getUserOrders same_orders anon_upsert_same_orders)|].
  intros Hu. unfold resolve_userId.
  split.
  - run_getOrder. unfold resolve_userId. rewrite Hu. cbn.
    destruct (find_link e); cbn; [|reflexivity|reflexivity].
    all_cases; destruct w as [[] ? ? ? ? ?]; reflexivity.
  - run_getUserOrders. unfold resolve_userId. rewrite Hu. cbn.
    destruct (find_link e); cbn; destruct w as [[] ? ? ? ? ?]; reflexivity.
Qed.

Lemma reads_leave_orders_alone_witness :
  db (getOrder calm (alice_orders None) (boot empty_store)).2 = empty_store
  ∧ db (getUserOrders calm (alice_orders None) (boot empty_store)).2 = empty_store.
Proof.
  destruct (reads_leave_orders_alone calm (alice_orders None) (boot empty_store))
    as (_ & _ & H).
  exact (H eq_refl).
Defined.

Lemma NoDup_fmap_agree {A B} (f : A → B) (l : list A) (x y : A) :
  NoDup (f <$> l) → x ∈ l → y ∈ l → f x = f y → x = y.
Proof.
  induction l as [|a l IH]; intros Hnd Hx Hy Hf; [by apply elem_of_nil in Hx|].
  rewrite fmap_cons in Hnd. apply NoDup_cons in Hnd as [Ha Hnd].
  apply elem_of_cons in Hx as [->|Hx]; apply elem_of_cons in Hy as [->|Hy].
  - reflexivity.
  - exfalso. apply Ha. rewrite Hf. apply list_elem_of_fmap. eauto.
  - exfalso. apply Ha. rewrite <- Hf. apply list_elem_of_fmap. eauto.
  - by apply IH.
Qed.

(** The reference identifies the order: on a table whose order numbers are
    distinct, two reads that are answered with orders showing the same
    reference are answered with the same order. *)
Theorem reference_identifies_order
    (e1 e2 : env) (req1 req2 : request) (w1 w2 : world) (v1 v2 : order_view) :
  orders (db w1) = orders (db w2) →
  NoDup (order_numbers (orders (db w1))) →
  answer (getOrder e1 req1 w1) = Some (Response 200 (order_body v1)) →
  answer (getOrder e2 req2 w2) = Some (Response 200 (order_body v2)) →
  v_reference v1 = v_reference v2 →
  v1 = v2.
Proof.
  intros Hsame Hnd H1 H2 Href.
  destruct (getOrder_200 _ _ _ _ H1) as (u1 & w1' & o1 & _ & Ho1 & _ & ->).
  destruct (getOrder_200 _ _ _ _ H2) as (u2 & w2' & o2 & _ & Ho2 & _ & ->).
  apply order_by_id_Some in Ho1 as [Hin1 _]. apply order_by_id_Some in Ho2 as [Hin2 _].
  rewrite <- Hsame in Hin2. cbn in Href. apply (inj pretty) in Href.
  by rewrite (NoDup_fmap_agree order.orderNumber _ o1 o2 Hnd Hin1 Hin2 Href).
Qed.

Lemma reference_identifies_order_witness :
  OrderView "order-2" "order-2" 2 "q-2" "buy" "USD" "ETH" 250 250 (1 # 10) 2500 3
            QUOTE_LOCKED "2" None None 1700000300 1700000300
  = view_of (order.mk "order-2" 2 "alice" "q-2" "buy" "USD" "ETH" 250 (1 # 10) 2500 3
                      QUOTE_LOCKED None 1700000300 1700000300).
Proof.
  set (w := (createOrder other_quote (alice_orders (Some "q-2"))
               (createOrder calm (alice_orders (Some "q-1")) (boot empty_store)).2).2).
  assert (NoDup (order_numbers (orders (db w)))) as Hnd
    by (apply (bool_decide_unpack _); vm_compute; exact I).
  assert (answer (getOrder quote_gone (Request (Some "alice") None "order-2") w)
          = Some (Response 200 (order_body
               (OrderView "order-2" "order-2" 2 "q-2" "buy" "USD" "ETH" 250 250 (1 # 10) 2500 3
                          QUOTE_LOCKED "2" None None 1700000300 1700000300)))) as H1
    by (vm_compute; reflexivity).
  assert (answer (getOrder calm (Request (Some "alice") None "order-2") w)
          = Some (Response 200 (order_body
               (view_of (order.mk "order-2" 2 "alice" "q-2" "buy" "USD" "ETH" 250 (1 # 10) 2500 3
                                  QUOTE_LOCKED None 1700000300 1700000300))))) as H2
    by (vm_compute; reflexivity).
  exact (reference_identifies_order quote_gone calm _ _ w w _ _ eq_refl Hnd H1 H2 eq_refl).
Defined.

(** * Further properties of anonymous identity resolution *)

Lemma select_id_by_email_row email us id :
  id ∈ select_id_by_email email us → UserRow id email ∈ us.
Proof.
  unfold select_id_by_email. intros Hin.
  apply list_elem_of_fmap in Hin as ([i m] & -> & Hu).
  apply list_elem_of_filter in Hu as [Hm Hu]. cbn in *. by subst m.
Qed.

Lemma select_id_by_email_nil email us :
  select_id_by_email email us = [] ↔ email ∉ user_email <$> us.
Proof.
  split; [|apply select_id_by_email_absent].
  intros Hnil Hin. destruct (select_id_by_email_present _ _ Hin) as (id & ids & Hsel & _).
  congruence.
Qed.

(** The statement, started on a snapshot whose rows are all still in the
    table.  It keeps the emails and the ids of the table distinct and never
    comes back with several rows.  A row it returns is a row of the table,
    after it, that carries the anonymous email.  It comes back with no row
    exactly when the table holds an anonymous row that the snapshot does not
    hold, and then it has written nothing; when nothing was written between
    its start and its end this cannot happen.  It fails only when the uuid
    drawn clashes with an id of the table while no anonymous row exists. *)
Theorem anon_upsert_insert_or_read (snapshot : list user_row) (fresh : string) (s : store) :
  NoDup (emails s) → NoDup (ids s) → snapshot ⊆ users s →
  NoDup (emails (anon_upsert_on snapshot fresh s).2)
  ∧ NoDup (ids (anon_upsert_on snapshot fresh s).2)
  ∧ (∀ rows, (anon_upsert_on snapshot fresh s).1 = Ok rows →
       rows = []
       ∨ ∃ id, rows = [id]
               ∧ UserRow id ANONYMOUS_EMAIL ∈ users (anon_upsert_on snapshot fresh s).2)
  ∧ ((anon_upsert_on snapshot fresh s).1 = Ok []
     ↔ ANONYMOUS_EMAIL ∈ emails s ∧ (ANONYMOUS_EMAIL ∉ user_email <$> snapshot))
  ∧ ((anon_upsert_on snapshot fresh s).1 = Ok [] → (anon_upsert_on snapshot fresh s).2 = s)
  ∧ (snapshot = users s → (anon_upsert_on snapshot fresh s).1 ≠ Ok [])
  ∧ ((∃ m, (anon_upsert_on snapshot fresh s).1 = Throw m) →
     fresh ∈ ids s ∧ (ANONYMOUS_EMAIL ∉ emails s) ∧ (anon_upsert_on snapshot fresh s).2 = s).
Proof.
  intros Hemails Hids Hsnap.
  destruct (anon_upsert_on_spec snapshot fresh s)
    as [(Hin & ->)|[(Hout & Hclash & ->)|(Hout & Hfree & ->)]]; cbn [fst snd].
  - refine (conj Hemails (conj Hids (conj _ (conj _ (conj _ (conj _ _)))))).
    + intros rows [= <-].
      destruct (select_id_by_email ANONYMOUS_EMAIL snapshot) as [|id rest] eqn:Hsel;
        [by left|right].
      exists id. split; [reflexivity|]. apply Hsnap, select_id_by_email_row.
      rewrite Hsel. apply list_elem_of_here.
    + rewrite <- select_id_by_email_nil. split.
      * intros [= Htake]. split; [exact Hin|].
        by destruct (select_id_by_email ANONYMOUS_EMAIL snapshot).
      * intros [_ ->]. reflexivity.
    + reflexivity.
    + intros -> [= Htake].
      destruct (select_id_by_email_present _ _ Hin) as (id & rest & Hsel & _).
      rewrite Hsel in Htake. discriminate.
    + intros [m Hm]. discriminate.
  - refine (conj Hemails (conj Hids (conj _ (conj _ (conj _ (conj _ _)))))).
    + intros rows Hrows. discriminate.
    + split; [discriminate|]. intros [Hin _]. contradiction.
    + discriminate.
    + intros _. discriminate.
    + auto.
  - refine (conj _ (conj _ (conj _ (conj _ (conj _ (conj _ _)))))).
    + unfold emails in *. cbn. rewrite fmap_app. cbn.
      apply NoDup_app. repeat split; [assumption| |apply NoDup_singleton].
      intros x Hx Hx'. apply list_elem_of_singleton in Hx'. by subst x.
    + unfold ids in *. cbn. rewrite fmap_app. cbn.
      apply NoDup_app. repeat split; [assumption| |apply NoDup_singleton].
      intros x Hx Hx'. apply list_elem_of_singleton in Hx'. by subst x.
    + intros rows [= <-]. right. exists fresh. split; [reflexivity|].
      cbn. apply elem_of_app. right. apply list_elem_of_here.
    + split; [discriminate|]. intros [Hin _]. contradiction.
    + discriminate.
    + intros _. discriminate.
    + intros [m Hm]. discriminate.
Qed.

Lemma anon_upsert_insert_or_read_witness :
  (anon_upsert_on [UserRow "u-0" "bob@exury.io"] "u-2"
     (Store [UserRow "u-0" "bob@exury.io"; UserRow "u-1" ANONYMOUS_EMAIL] [] 1)).1
  = Ok []
  ∧ NoDup (emails (anon_upsert_on [UserRow "u-0" "bob@exury.io"] "u-2"
             (Store [UserRow "u-0" "bob@exury.io"; UserRow "u-1" ANONYMOUS_EMAIL] [] 1)).2).
Proof.
  set (s := Store [UserRow "u-0" "bob@exury.io"; UserRow "u-1" ANONYMOUS_EMAIL] [] 1).
  assert (NoDup (emails s)) as H1 by (apply (bool_decide_unpack _); vm_compute; exact I).
  assert (NoDup (ids s)) as H2 by (apply (bool_decide_unpack _); vm_compute; exact I).
  assert ([UserRow "u-0" "bob@exury.io"] ⊆ users s) as H3
    by (intros x Hx; apply list_elem_of_singleton in Hx as ->; apply list_elem_of_here).
  destruct (anon_upsert_insert_or_read [UserRow "u-0" "bob@exury.io"] "u-2" s H1 H2 H3)
    as (Hemails & _).
  split; [reflexivity | exact Hemails].
Defined.

(** With the statement started on the table of the process state, the call
    is [getOrCreateAnonymousUserId]. *)
Lemma resolution_on_current (q : query_env) (w : world) :
  getOrCreateAnonymousUserId_with (anon_query_on (users (db w)) q) w
  = getOrCreateAnonymousUserId q w.
Proof.
  unfold getOrCreateAnonymousUserId.
  destruct (truthy_opt (cachedAnonymousUserId w)) eqn:Hc.
  - destruct (cachedAnonymousUserId w) as [id|] eqn:Hid; [|discriminate].
    cbn in Hc. by rewrite !(resolve_cached _ w id Hid Hc).
  - rewrite !(resolve_uncached _ w Hc). reflexivity.
Qed.

(** A call in a process that has no id cached yet, whose statement started
    on a snapshot whose rows are all still in the table.  When it returns an
    id, the users table holds a row with that id and the anonymous email,
    the id is cached, one statement was sent and nothing was logged.  When
    its statement reaches the database and is answered, it throws in two
    situations only, with the table and the cache as they were: the uuid
    drawn clashes with an id of the table while no anonymous row exists, or
    the table holds an anonymous row that the snapshot does not hold, and
    then the statement came back with no row and the error is the one of
    the zero-rows test.  The second situation always ends so. *)
Theorem resolution_returns_a_stored_identity
    (snapshot : list user_row) (q : query_env) (w : world) :
  truthy_opt (cachedAnonymousUserId w) = false →
  snapshot ⊆ users (db w) →
  (∀ id, (getOrCreateAnonymousUserId_with (anon_query_on snapshot q) w).1 = Ok id →
         UserRow id ANONYMOUS_EMAIL
         ∈ users (db (getOrCreateAnonymousUserId_with (anon_query_on snapshot q) w).2)
         ∧ cachedAnonymousUserId (getOrCreateAnonymousUserId_with (anon_query_on snapshot q) w).2
           = Some id
         ∧ sent (getOrCreateAnonymousUserId_with (anon_query_on snapshot q) w).2
           = "anon_upsert" :: sent w
         ∧ logged (getOrCreateAnonymousUserId_with (anon_query_on snapshot q) w).2 = logged w)
  ∧ (q_link q = Delivered →
     ∀ m, (getOrCreateAnonymousUserId_with (anon_query_on snapshot q) w).1 = Throw m →
          db (getOrCreateAnonymousUserId_with (anon_query_on snapshot q) w).2 = db w
          ∧ cachedAnonymousUserId (getOrCreateAnonymousUserId_with (anon_query_on snapshot q) w).2
            = cachedAnonymousUserId w
          ∧ ((m = ("duplicate key value violates unique constraint "
                   ++ quoted "users_pkey")%string
              ∧ q_uuid q ∈ ids (db w) ∧ (ANONYMOUS_EMAIL ∉ emails (db w)))
             ∨ (m = "Failed to get or create anonymous user"
                ∧ ANONYMOUS_EMAIL ∈ emails (db w)
                ∧ (ANONYMOUS_EMAIL ∉ user_email <$> snapshot))))
  ∧ (q_link q = Delivered →
     ANONYMOUS_EMAIL ∈ emails (db w) → (ANONYMOUS_EMAIL ∉ user_email <$> snapshot) →
     (getOrCreateAnonymousUserId_with (anon_query_on snapshot q) w).1
     = Throw "Failed to get or create anonymous user").
Proof.
  intros Hc Hsnap. rewrite (resolve_uncached _ w Hc).
  unfold anon_query_on, pool_query. cbn [db add_sent].
  destruct (anon_upsert_on_spec snapshot (q_uuid q) (db w))
    as [(Hin & Heq)|[(Hout & Hclash & Heq)|(Hout & Hfree & Heq)]].
  - destruct (select_id_by_email ANONYMOUS_EMAIL snapshot) as [|id rest] eqn:Hsel.
    + assert (ANONYMOUS_EMAIL ∉ user_email <$> snapshot) as Hstale
        by (by apply select_id_by_email_nil).
      cbn in Heq. refine (conj _ (conj _ _)).
      * destruct (q_link q); cbn; rewrite ?Heq; cbn; discriminate.
      * intros ->. cbn. rewrite Heq. cbn. intros m [= <-].
        split; [by destruct w|]. split; [reflexivity|]. right. auto.
      * intros ->. cbn. rewrite Heq. reflexivity.
    + assert (UserRow id ANONYMOUS_EMAIL ∈ users (db w)) as Hrow.
      { apply Hsnap, select_id_by_email_row. rewrite Hsel. apply list_elem_of_here. }
      assert (ANONYMOUS_EMAIL ∈ user_email <$> snapshot) as Hseen.
      { apply dec_stable. intros Hn. apply select_id_by_email_nil in Hn. congruence. }
      cbn in Heq. refine (conj _ (conj _ _)).
      * destruct (q_link q); cbn; rewrite ?Heq; cbn; [|discriminate|discriminate].
        intros id' [= <-]. repeat split. exact Hrow.
      * intros ->. cbn. rewrite Heq. cbn. discriminate.
      * intros _ _ Hn. contradiction.
  - refine (conj _ (conj _ _)).
    + destruct (q_link q); cbn; rewrite ?Heq; cbn; discriminate.
    + intros ->. cbn. rewrite Heq. cbn. intros m [= <-].
      split; [by destruct w|]. split; [reflexivity|]. left. auto.
    + intros _ Hin. contradiction.
  - refine (conj _ (conj _ _)).
    + destruct (q_link q); cbn; rewrite ?Heq; cbn; [|discriminate|discriminate].
      intros id' [= <-]. repeat split. cbn.
      apply elem_of_app. right. apply list_elem_of_here.
    + intros ->. cbn. rewrite Heq. cbn. discriminate.
    + intros _ Hin. contradiction.
Qed.

Lemma resolution_returns_a_stored_identity_witness :
  (getOrCreateAnonymousUserId_with (anon_query_on [] (QueryEnv Delivered "u-2"))
     (boot (Store [UserRow "u-1" ANONYMOUS_EMAIL] [] 1))).1
  = Throw "Failed to get or create anonymous user".
Proof.
  destruct (resolution_returns_a_stored_identity [] (QueryEnv Delivered "u-2")
              (boot (Store [UserRow "u-1" ANONYMOUS_EMAIL] [] 1)) eq_refl)
    as (_ & _ & H).
  - intros x Hx. by apply elem_of_nil in Hx.
  - apply H; [reflexivity | apply list_elem_of_here | apply not_elem_of_nil].
Defined.

(** ** Concurrent callers when anything may fail *)

Section tolerant.
Import Concurrent.

Variable s0 : store.
Hypothesis no_anonymous_row : ANONYMOUS_EMAIL ∉ emails s0.

Lemma undecided_agrees id (cs : list caller) :
  Forall (λ th, undecided (at_phase th)) cs → Forall (λ th, agrees id (at_phase th)) cs.
Proof.
  intros H. eapply Forall_impl; [exact H|]. intros [p ph]. cbn.
  destruct ph as [| | |[?|?]|[?|?]]; cbn; tauto.
Qed.

Lemma started_on_later id (cs : list caller) :
  Forall (λ th, started_on s0 None (at_phase th)) cs →
  Forall (λ th, started_on s0 (Some id) (at_phase th)) cs.
Proof.
  intros H. eapply Forall_impl; [exact H|]. intros [p ph]. cbn.
  destruct ph; cbn; tauto.
Qed.

(** The end of a statement on the table as the run found it, whatever the
    statement read. *)
Lemma exec_start snapshot e :
  (∃ m, exec snapshot e s0 = (Throw m, s0))
  ∨ (exec snapshot e s0
     = (Ok [q_uuid e], set_users (users s0 ++ [UserRow (q_uuid e) ANONYMOUS_EMAIL]) s0))
  ∨ (∃ m, exec snapshot e s0
          = (Throw m, set_users (users s0 ++ [UserRow (q_uuid e) ANONYMOUS_EMAIL]) s0)).
Proof.
  unfold exec.
  destruct (anon_upsert_on_spec snapshot (q_uuid e) s0)
    as [(Hin & _)|[(_ & _ & Heq)|(_ & _ & Heq)]]; [contradiction| |];
    destruct (q_link e); rewrite ?Heq; cbn; eauto.
Qed.

(** The end of a statement once the row is there: it reads the row or,
    started before it, nothing. *)
Lemma exec_settled snapshot e id :
  snapshot = users s0 ∨ snapshot = users s0 ++ [UserRow id ANONYMOUS_EMAIL] →
  let s1 := set_users (users s0 ++ [UserRow id ANONYMOUS_EMAIL]) s0 in
  (∃ rows, (rows = [] ∨ rows = [id]) ∧ exec snapshot e s1 = (Ok rows, s1))
  ∨ ∃ m, exec snapshot e s1 = (Throw m, s1).
Proof.
  intros Hsnap s1.
  assert (∃ rows, (rows = [] ∨ rows = [id])
                  ∧ anon_upsert_on snapshot (q_uuid e) s1 = (Ok rows, s1))
    as (rows & Hrows & Heq).
  { destruct Hsnap as [-> | ->].
    - exists []. split; [by left|].
      exact (exec_stale s0 no_anonymous_row (QueryEnv Delivered (q_uuid e)) id eq_refl).
    - exists [id]. split; [by right|].
      exact (exec_after s0 no_anonymous_row (QueryEnv Delivered (q_uuid e)) id eq_refl). }
  unfold exec. destruct (q_link e); rewrite ?Heq; cbn; eauto.
Qed.

(** The end of a statement before any row was inserted. *)
Lemma replied_before t th snapshot e c :
  database c = s0 → caches c = ∅ →
  Forall (λ th, undecided (at_phase th)) (callers c) →
  Forall (λ th, started_on s0 None (at_phase th)) (callers c) →
  tolerant_inv s0
    (let '(r, s') := exec snapshot e (database c) in
     Config s' (caches c) (set_phase t th (Replied r) (callers c))).
Proof.
  intros Hdb Hcache Hall Hsnap. rewrite Hdb.
  destruct (exec_start snapshot e) as [[m ->]|[->|[m ->]]].
  - apply tolerant_before; cbn; [reflexivity | exact Hcache | |];
      (apply Forall_insert; [assumption|]); exact I.
  - apply (tolerant_after _ _ (q_uuid e)); cbn; [reflexivity | | |].
    + intros q x. rewrite Hcache, lookup_empty. discriminate.
    + apply Forall_insert; [by apply undecided_agrees|]. by right.
    + apply Forall_insert; [by apply started_on_later|]. exact I.
  - apply (tolerant_after _ _ (q_uuid e)); cbn; [reflexivity | | |].
    + intros q x. rewrite Hcache, lookup_empty. discriminate.
    + apply Forall_insert; [by apply undecided_agrees|]. exact I.
    + apply Forall_insert; [by apply started_on_later|]. exact I.
Qed.

(** The end of a statement once the row is there. *)
Lemma replied_after t th snapshot e c id :
  database c = set_users (users s0 ++ [UserRow id ANONYMOUS_EMAIL]) s0 →
  (∀ p x, caches c !! p = Some x → x = id) →
  Forall (λ th, agrees id (at_phase th)) (callers c) →
  Forall (λ th, started_on s0 (Some id) (at_phase th)) (callers c) →
  snapshot = users s0 ∨ snapshot = users s0 ++ [UserRow id ANONYMOUS_EMAIL] →
  tolerant_inv s0
    (let '(r, s') := exec snapshot e (database c) in
     Config s' (caches c) (set_phase t th (Replied r) (callers c))).
Proof.
  intros Hdb Hcache Hall Hsnap Hs. rewrite Hdb.
  destruct (exec_settled snapshot e id Hs) as [(rows & Hrows & ->)|[m ->]];
    apply (tolerant_after _ _ id); cbn; try reflexivity; try exact Hcache;
    (apply Forall_insert; [assumption|]); first [exact Hrows | exact I].
Qed.

Lemma step_tolerant ev c : tolerant_inv s0 c → tolerant_inv s0 (step ev c).
Proof.
  intros Hinv. destruct ev as [t|t|t e|t]; cbn.
  - destruct (callers c !! t) as [[p ph]|] eqn:Ht; [|exact Hinv].
    destruct ph; try exact Hinv.
    destruct Hinv as [Hdb Hcache Hall Hsnap | id Hdb Hcache Hall Hsnap].
    + apply tolerant_before; cbn; [exact Hdb | exact Hcache | |];
        (apply Forall_insert; [assumption|]); cbn; rewrite Hcache, lookup_empty; exact I.
    + apply (tolerant_after _ _ id); cbn; [exact Hdb | exact Hcache | |];
        (apply Forall_insert; [assumption|]); cbn; unfold enter;
        (destruct (caches c !! p) as [x|] eqn:Hx; cbn; [|exact I]);
        (destruct (truthy x); [|exact I]); cbn;
        first [exact I | exact (Hcache p x Hx)].
  - destruct (callers c !! t) as [[p ph]|] eqn:Ht; [|exact Hinv].
    destruct ph; try exact Hinv.
    destruct Hinv as [Hdb Hcache Hall Hsnap | id Hdb Hcache Hall Hsnap].
    + apply tolerant_before; cbn; [exact Hdb | exact Hcache | |];
        (apply Forall_insert; [assumption|]); cbn; [exact I|].
      left. by rewrite Hdb.
    + apply (tolerant_after _ _ id); cbn; [exact Hdb | exact Hcache | |];
        (apply Forall_insert; [assumption|]); cbn; [exact I|].
      right. by rewrite Hdb.
  - destruct (callers c !! t) as [[p ph]|] eqn:Ht; [|exact Hinv].
    destruct ph as [| |snapshot|r|r]; try exact Hinv.
    + destruct Hinv as [Hdb Hcache Hall Hsnap | id Hdb Hcache Hall Hsnap].
      * by apply replied_before.
      * apply (replied_after _ _ _ _ _ id); try assumption. right. by rewrite Hdb.
    + destruct Hinv as [Hdb Hcache Hall Hsnap | id Hdb Hcache Hall Hsnap].
      * by apply replied_before.
      * apply (replied_after _ _ _ _ _ id); try assumption.
        rewrite Forall_lookup in Hsnap. exact (Hsnap _ _ Ht).
  - destruct (callers c !! t) as [[p ph]|] eqn:Ht; [|exact Hinv].
    destruct ph as [| |snapshot|r|r]; try exact Hinv.
    destruct Hinv as [Hdb Hcache Hall Hsnap | id Hdb Hcache Hall Hsnap].
    + pose proof Hall as Hall'. rewrite Forall_lookup in Hall'.
      specialize (Hall' _ _ Ht). cbn in Hall'. destruct r as [rows|m]; [contradiction|].
      cbn. apply tolerant_before; cbn; [exact Hdb | exact Hcache | |];
        (apply Forall_insert; [assumption|]); exact I.
    + pose proof Hall as Hall'. rewrite Forall_lookup in Hall'.
      specialize (Hall' _ _ Ht). cbn in Hall'. destruct r as [rows|m].
      * destruct Hall' as [-> | ->]; cbn.
        -- apply (tolerant_after _ _ id); cbn; [exact Hdb | exact Hcache | |];
             (apply Forall_insert; [assumption|]); exact I.
        -- apply (tolerant_after _ _ id); cbn; [exact Hdb | | |].
           ++ intros q x. rewrite lookup_insert.
              case_decide; [by intros [= <-]|by apply Hcache].
           ++ apply Forall_insert; [exact Hall|]. reflexivity.
           ++ apply Forall_insert; [exact Hsnap|]. exact I.
      * cbn. apply (tolerant_after _ _ id); cbn; [exact Hdb | exact Hcache | |];
          (apply Forall_insert; [assumption|]); exact I.
Qed.

Lemma run_tolerant evs : ∀ c, tolerant_inv s0 c → tolerant_inv s0 (run evs c).
Proof.
  induction evs as [|ev evs IH]; intros c Hinv; [exact Hinv|].
  cbn. apply IH. by apply step_tolerant.
Qed.

Lemma init_tolerant processes : tolerant_inv s0 (init s0 processes).
Proof.
  apply tolerant_before; cbn; [reflexivity | reflexivity | |];
    apply Forall_fmap, Forall_true; intros p; exact I.
Qed.

End tolerant.

(** Callers in any processes start when no anonymous row exists and run
    interleaved in any order, and any statement may be refused, lose its
    answer or clash on the uuid it draws.  At every moment the users table
    has gained at most one row, an anonymous one; the callers that have
    been given an id have all been given the same; and that id is the id of
    the anonymous row in the table. *)
Theorem concurrent_calls_agree_under_faults
    (s0 : store) (processes : list nat) (evs : list Concurrent.event) :
  ANONYMOUS_EMAIL ∉ emails s0 →
  (users (Concurrent.database (Concurrent.run evs (Concurrent.init s0 processes))) = users s0
   ∨ ∃ id, users (Concurrent.database (Concurrent.run evs (Concurrent.init s0 processes)))
           = users s0 ++ [UserRow id ANONYMOUS_EMAIL])
  ∧ (∀ t1 t2 p1 p2 a b,
       Concurrent.callers (Concurrent.run evs (Concurrent.init s0 processes)) !! t1
       = Some (Concurrent.Caller p1 (Concurrent.Returned (Ok a))) →
       Concurrent.callers (Concurrent.run evs (Concurrent.init s0 processes)) !! t2
       = Some (Concurrent.Caller p2 (Concurrent.Returned (Ok b))) →
       a = b)
  ∧ (∀ t p a,
       Concurrent.callers (Concurrent.run evs (Concurrent.init s0 processes)) !! t
       = Some (Concurrent.Caller p (Concurrent.Returned (Ok a))) →
       select_id_by_email ANONYMOUS_EMAIL
         (users (Concurrent.database (Concurrent.run evs (Concurrent.init s0 processes))))
       = [a]).
Proof.
  intros Hs0.
  pose proof (run_tolerant s0 Hs0 evs _ (init_tolerant s0 processes)) as Hinv.
  set (c := Concurrent.run evs (Concurrent.init s0 processes)) in *.
  destruct Hinv as [Hdb _ Hall _ | id Hdb _ Hall _]; rewrite Forall_lookup in Hall.
  - split; [left; by rewrite Hdb|]. split.
    + intros t1 t2 p1 p2 a b H1 _. destruct (Hall _ _ H1).
    + intros t p a H1. destruct (Hall _ _ H1).
  - split; [right; exists id; by rewrite Hdb|]. split.
    + intros t1 t2 p1 p2 a b H1 H2.
      pose proof (Hall _ _ H1) as Ha. pose proof (Hall _ _ H2) as Hb. cbn in *. congruence.
    + intros t p a H1. pose proof (Hall _ _ H1) as Ha. cbn in Ha. subst a.
      rewrite Hdb. cbn. by apply select_after_insert.
Qed.

Lemma concurrent_calls_agree_under_faults_witness :
  let evs := [Concurrent.Enter 0; Concurrent.Enter 1; Concurrent.Enter 2;
              Concurrent.Exec 1 (QueryEnv (ReplyLost "socket hang up") "u-b");
              Concurrent.Exec 0 (QueryEnv Delivered "u-a");
              Concurrent.Exec 2 (QueryEnv (Refused "ECONNREFUSED") "u-c");
              Concurrent.Resume 0; Concurrent.Resume 1; Concurrent.Resume 2] in
  let c := Concurrent.run evs (Concurrent.init empty_store [7; 7; 8]%nat) in
  Concurrent.callers c !! 0%nat
  = Some (Concurrent.Caller 7 (Concurrent.Returned (Ok "u-b")))
  ∧ select_id_by_email ANONYMOUS_EMAIL (users (Concurrent.database c)) = ["u-b"].
Proof.
  intros evs c.
  assert (ANONYMOUS_EMAIL ∉ emails empty_store) as H by (cbn; apply not_elem_of_nil).
  destruct (concurrent_calls_agree_under_faults empty_store [7; 7; 8]%nat evs H)
    as (_ & _ & Hrow).
  assert (Concurrent.callers c !! 0%nat
          = Some (Concurrent.Caller 7 (Concurrent.Returned (Ok "u-b")))) as H0
    by reflexivity.
  split; [exact H0|]. exact (Hrow 0%nat 7%nat "u-b" H0).
Defined.

(** * Further properties of the migration *)

Section backfill.
Import Migration.

Lemma numbered_keys rs : ∀ next i, i ∈ (numbered rs next).1.*1 → i ∈ row_id <$> rs.
Proof.
  induction rs as [|r rs IH]; intros next i Hi; [exact Hi|].
  cbn in Hi. rewrite fmap_cons. destruct (order_number r).
  - apply list_elem_of_further. by eapply IH.
  - destruct (numbered rs (next + 1)) as [l n'] eqn:Hn. cbn in Hi.
    apply elem_of_cons in Hi as [->|Hi]; [apply list_elem_of_here|].
    apply list_elem_of_further. apply (IH (next + 1)). by rewrite Hn.
Qed.

Lemma numbered_next rs : ∀ next, (numbered rs next).2 = next + Z.of_nat (nulls rs).
Proof.
  induction rs as [|r rs IH]; intros next; cbn; [lia|].
  destruct (order_number r); [apply IH|].
  specialize (IH (next + 1)). destruct (numbered rs (next + 1)). cbn in *. lia.
Qed.

Lemma numbered_drawn rs : ∀ next,
  (numbered rs next).1.*2 = seqZ next (Z.of_nat (nulls rs)).
Proof.
  induction rs as [|r rs IH]; intros next; cbn; [reflexivity|].
  destruct (order_number r); [apply IH|].
  specialize (IH (next + 1)). destruct (numbered rs (next + 1)). cbn in *.
  rewrite (seqZ_cons next) by lia. f_equal. rewrite IH. f_equal; lia.
Qed.

Lemma list_find_absent (l : list (string * Z)) i :
  i ∉ l.*1 → list_find (λ p : string * Z, p.1 = i) l = None.
Proof.
  intros Hi. apply list_find_None, Forall_forall. intros [j m] Hj Heq. cbn in Heq. subst j.
  apply Hi. apply list_elem_of_fmap. exists (i, m). split; [reflexivity|exact Hj].
Qed.

(** With distinct keys the update fills exactly the rows without a number. *)
Lemma update_from_fill rs : ∀ (l0 : list (string * Z)) next,
  NoDup (row_id <$> rs) → (∀ i, i ∈ row_id <$> rs → i ∉ l0.*1) →
  update_from (l0 ++ (numbered rs next).1) rs = fill rs next.
Proof.
  induction rs as [|r rs IH]; intros l0 next Hnd Hl0; [reflexivity|].
  rewrite fmap_cons in Hnd. apply NoDup_cons in Hnd as [Hr Hnd].
  cbn [numbered fill]. destruct (order_number r) as [n|] eqn:Hn.
  - change (update_from ?l (r :: rs)) with
      (match list_find (λ p : string * Z, p.1 = row_id r) l with
       | Some (_, (_, n)) => Row (row_id r) (Some n)
       | None => r
       end :: update_from l rs).
    rewrite list_find_absent.
    2:{ rewrite fmap_app, not_elem_of_app. split.
        - apply Hl0. rewrite fmap_cons. apply list_elem_of_here.
        - intros Hin. apply Hr. by eapply numbered_keys. }
    f_equal. apply IH; [exact Hnd|].
    intros i Hi. apply Hl0. rewrite fmap_cons. by apply list_elem_of_further.
  - destruct (numbered rs (next + 1)) as [l n'] eqn:Hnum. cbn [fst].
    change (update_from ?l (r :: rs)) with
      (match list_find (λ p : string * Z, p.1 = row_id r) l with
       | Some (_, (_, n)) => Row (row_id r) (Some n)
       | None => r
       end :: update_from l rs).
    f_equal.
    + rewrite list_find_app_r.
      2:{ apply list_find_absent, Hl0. rewrite fmap_cons. apply list_elem_of_here. }
      cbn. rewrite decide_True by reflexivity. reflexivity.
    + rewrite cons_middle, app_assoc.
      replace l with (numbered rs (next + 1)).1 by (by rewrite Hnum).
      apply IH; [exact Hnd|].
      intros i Hi. rewrite fmap_app, not_elem_of_app. split.
      * apply Hl0. rewrite fmap_cons. by apply list_elem_of_further.
      * cbn. intros Hin. apply list_elem_of_singleton in Hin. subst i. contradiction.
Qed.

Lemma fill_ids rs : ∀ next, row_id <$> fill rs next = row_id <$> rs.
Proof.
  induction rs as [|r rs IH]; intros next; [reflexivity|].
  cbn. destruct (order_number r); cbn; by rewrite IH.
Qed.

Lemma fill_keeps rs : ∀ next i r n,
  rs !! i = Some r → order_number r = Some n → fill rs next !! i = Some r.
Proof.
  induction rs as [|r0 rs IH]; intros next i r n Hi Hn; [discriminate|].
  cbn. destruct i as [|i]; cbn in Hi.
  - injection Hi as ->. rewrite Hn. reflexivity.
  - destruct (order_number r0); cbn; by eapply IH.
Qed.

Lemma fill_no_null rs : ∀ next, None ∉ order_number <$> fill rs next.
Proof.
  induction rs as [|r rs IH]; intros next; [apply not_elem_of_nil|].
  cbn. destruct (order_number r) eqn:Hr; cbn; rewrite not_elem_of_cons; split;
    try apply IH; congruence.
Qed.

Lemma fill_numbers_elem rs : ∀ next m,
  m ∈ numbers (fill rs next) →
  m ∈ numbers rs ∨ next ≤ m < next + Z.of_nat (nulls rs).
Proof.
  unfold numbers. induction rs as [|r rs IH]; intros next m Hm; [by left|].
  cbn in Hm |- *. destruct (order_number r) as [n|] eqn:Hr; cbn in Hm; rewrite ?Hr in Hm;
    cbn in Hm; apply elem_of_cons in Hm as [->|Hm].
  - left. apply list_elem_of_here.
  - destruct (IH _ _ Hm) as [?|?]; [left; by apply list_elem_of_further|right; lia].
  - right. lia.
  - destruct (IH _ _ Hm) as [?|?]; [by left|right; lia].
Qed.

Lemma fill_NoDup rs : ∀ next,
  Forall (λ m, m < next) (numbers rs) → NoDup (numbers rs) → NoDup (numbers (fill rs next)).
Proof.
  unfold numbers. induction rs as [|r rs IH]; intros next Hlt Hnd; [constructor|].
  cbn in *. destruct (order_number r) as [n|] eqn:Hr; cbn in *; rewrite ?Hr; cbn.
  - apply Forall_cons in Hlt as [Hn Hlt]. apply NoDup_cons in Hnd as [Hnin Hnd].
    apply NoDup_cons. split; [|by apply IH].
    intros Hin. destruct (fill_numbers_elem rs next n Hin) as [?|?]; [contradiction|lia].
  - apply NoDup_cons. split.
    + intros Hin. destruct (fill_numbers_elem rs (next + 1) next Hin) as [Hold|?]; [|lia].
      rewrite Forall_forall in Hlt. specialize (Hlt _ Hold). lia.
    + apply IH; [|exact Hnd]. eapply Forall_impl; [exact Hlt|]. cbn. lia.
Qed.

Lemma exec_backfill d next :
  sequence d = Some next → has_column d = true → unique_index d = false →
  NoDup (row_id <$> rows d) →
  INT_MIN ≤ next → next + Z.of_nat (nulls (rows d)) - 1 ≤ INT_MAX →
  exec BACKFILL d
  = Ok (Schema (Some (next + Z.of_nat (nulls (rows d)))) true (not_null d) false
               (default_nextval d) (fill (rows d) next)).
Proof.
  intros Hs Hc Hu Hnd Hlo Hhi. cbn. rewrite Hs, Hc, Hu. cbn.
  pose proof (update_from_fill (rows d) [] next Hnd) as Hupd. cbn [app] in Hupd.
  pose proof (numbered_next (rows d) next) as Hnext.
  pose proof (numbered_drawn (rows d) next) as Hdrawn.
  destruct (numbered (rows d) next) as [l n'] eqn:Hnum. cbn in *.
  rewrite Hdrawn, in_range_seqZ by assumption. cbn.
  rewrite Hupd by (intros; apply not_elem_of_nil). by subst n'.
Qed.

End backfill.

(** The backfill on a table that is numbered in part, before the unique
    index exists, with distinct keys and room in the [INTEGER] column: it
    goes through; the rows and their order are kept; a row that had a number
    keeps it; no row is left without one; the sequence has moved on by the
    number of rows that had none; and when the numbers in use were distinct
    and below the sequence, the numbers of the table are distinct
    afterwards. *)
Theorem backfill_fills_only_gaps (d : Migration.schema) (next : Z) :
  Migration.sequence d = Some next →
  Migration.has_column d = true →
  Migration.unique_index d = false →
  NoDup (Migration.row_id <$> Migration.rows d) →
  INT_MIN ≤ next → next + Z.of_nat (nulls (Migration.rows d)) - 1 ≤ INT_MAX →
  ∃ d',
    Migration.exec Migration.BACKFILL d = Ok d'
    ∧ Migration.row_id <$> Migration.rows d' = Migration.row_id <$> Migration.rows d
    ∧ (∀ i r n, Migration.rows d !! i = Some r → Migration.order_number r = Some n →
                Migration.rows d' !! i = Some r)
    ∧ (None ∉ Migration.order_number <$> Migration.rows d')
    ∧ Migration.sequence d' = Some (next + Z.of_nat (nulls (Migration.rows d)))
    ∧ (Forall (λ m, m < next) (Migration.numbers (Migration.rows d)) →
       NoDup (Migration.numbers (Migration.rows d)) →
       NoDup (Migration.numbers (Migration.rows d'))).
Proof.
  intros Hs Hc Hu Hnd Hlo Hhi. eexists. split; [by apply exec_backfill|]. cbn.
  split; [apply fill_ids|]. split; [intros i r n; apply fill_keeps|].
  split; [apply fill_no_null|]. split; [reflexivity|]. apply fill_NoDup.
Qed.

Lemma backfill_fills_only_gaps_witness :
  ∃ d',
    Migration.exec Migration.BACKFILL
      (Migration.Schema (Some 8) true false false false
         [Migration.Row "o-1" (Some 3); Migration.Row "o-2" None;
          Migration.Row "o-3" (Some 7); Migration.Row "o-4" None]) = Ok d'
    ∧ Migration.order_number <$> Migration.rows d' = [Some 3; Some 8; Some 7; Some 9]
    ∧ NoDup (Migration.numbers (Migration.rows d')).
Proof.
  set (d := Migration.Schema (Some 8) true false false false
              [Migration.Row "o-1" (Some 3); Migration.Row "o-2" None;
               Migration.Row "o-3" (Some 7); Migration.Row "o-4" None]).
  assert (NoDup (Migration.row_id <$> Migration.rows d)) as H1
    by (apply (bool_decide_unpack _); vm_compute; exact I).
  assert (INT_MIN ≤ 8) as H2 by (vm_compute; discriminate).
  assert (8 + Z.of_nat (nulls (Migration.rows d)) - 1 ≤ INT_MAX) as H3
    by (vm_compute; discriminate).
  destruct (backfill_fills_only_gaps d 8 eq_refl eq_refl eq_refl H1 H2 H3)
    as (d' & Hd' & _ & _ & _ & _ & Hnd).
  exists d'. split; [exact Hd'|].
  assert (Forall (λ m, m < 8) (Migration.numbers (Migration.rows d))) as H4
    by (repeat constructor).
  assert (NoDup (Migration.numbers (Migration.rows d))) as H5
    by (apply (bool_decide_unpack _); vm_compute; exact I).
  split; [|exact (Hnd H4 H5)].
  vm_compute in Hd'. injection Hd' as <-. reflexivity.
Defined.

(** A hand-given number that the sequence has not passed yet is drawn again
    by the backfill, and the unique index can then not be created. *)
Example backfill_meets_a_number_ahead_of_the_sequence :
  Migration.exec_all Migration.migration
    (Migration.Schema (Some 1) true false false false
       [Migration.Row "o-1" (Some 1); Migration.Row "o-2" None])
  = Throw ("could not create unique index " ++ quoted "orders_order_number_idx").
Proof. reflexivity. Qed.

Section rerun.
Import Migration.

Lemma numbered_no_null rs : ∀ next,
  None ∉ order_number <$> rs → numbered rs next = ([], next).
Proof.
  induction rs as [|r rs IH]; intros next Hn; [reflexivity|].
  rewrite fmap_cons, not_elem_of_cons in Hn. destruct Hn as [Hr Hn].
  cbn. destruct (order_number r); [by apply IH|congruence].
Qed.

Lemma update_from_nil rs : update_from [] rs = rs.
Proof.
  unfold update_from. induction rs as [|r rs IH]; [reflexivity|].
  rewrite fmap_cons, IH. reflexivity.
Qed.

End rerun.

(** Run again on a table that has the column, a sequence, a number on every
    row and no number twice, the whole migration goes through, draws nothing
    from the sequence and leaves every row as it is. *)
Theorem migration_rerun_changes_nothing (d : Migration.schema) :
  Migration.has_column d = true →
  is_Some (Migration.sequence d) →
  None ∉ Migration.order_number <$> Migration.rows d →
  NoDup (Migration.numbers (Migration.rows d)) →
  Migration.exec_all Migration.migration d
  = Ok (Migration.Schema (Migration.sequence d) true true true true (Migration.rows d)).
Proof.
  intros Hc [n Hs] Hnull Hnd. unfold Migration.migration.
  destruct d as [sq hc nn ui df rs]. cbn in Hc, Hs, Hnull, Hnd. subst hc sq.
  cbn -[Migration.numbered Migration.update_from Migration.numbers].
  rewrite (numbered_no_null _ n Hnull), update_from_nil.
  cbn -[Migration.numbers].
  rewrite (bool_decide_eq_true_2 _ Hnd), andb_false_r.
  cbn -[Migration.numbers].
  rewrite (bool_decide_eq_false_2 _ Hnull).
  destruct ui; cbn -[Migration.numbers]; rewrite ?(bool_decide_eq_true_2 _ Hnd); reflexivity.
Qed.

Lemma migration_rerun_changes_nothing_witness :
  Migration.exec_all (Migration.migration ++ Migration.migration)
    (Migration.legacy None ["o-1"; "o-2"])
  = Migration.exec_all Migration.migration (Migration.legacy None ["o-1"; "o-2"]).
Proof.
  set (d := Migration.Schema (Some 3) true true true true
              [Migration.Row "o-1" (Some 1); Migration.Row "o-2" (Some 2)]).
  assert (Migration.exec_all Migration.migration (Migration.legacy None ["o-1"; "o-2"]) = Ok d)
    as Hfirst by reflexivity.
  assert (None ∉ Migration.order_number <$> Migration.rows d) as H1
    by (apply (bool_decide_unpack _); vm_compute; exact I).
  assert (NoDup (Migration.numbers (Migration.rows d))) as H2
    by (apply (bool_decide_unpack _); vm_compute; exact I).
  pose proof (migration_rerun_changes_nothing d eq_refl (mk_is_Some _ _ eq_refl) H1 H2) as Hsecond.
  rewrite Hfirst. etransitivity; [|exact Hsecond]. reflexivity.
Defined.

(** When the rows to number do not all fit below the largest [INTEGER], the
    migration stops at the backfill with "integer out of range". *)
Theorem migration_overflows (seq0 : option Z) (ids : list string) :
  INT_MAX < default 1 seq0 + Z.of_nat (length ids) - 1 →
  (1 ≤ length ids)%nat →
  Migration.exec_all Migration.migration (Migration.legacy seq0 ids)
  = Throw "integer out of range".
Proof.
  intros Hhi Hlen. unfold Migration.migration, Migration.legacy.
  set (start := default 1 seq0) in *.
  cbn [Migration.exec_all Migration.exec Migration.sequence Migration.has_column
       Migration.not_null Migration.unique_index Migration.default_nextval Migration.rows negb].
  rewrite <- list_fmap_compose.
  change ((λ r, Migration.Row (Migration.row_id r) None) ∘ (λ i, Migration.Row i None))
    with (λ i : string, Migration.Row i None).
  fold start. rewrite numbered_legacy, number_from_drawn.
  assert (forallb in_integer_range (seqZ start (Z.of_nat (length ids))) = false) as ->;
    [|reflexivity].
  apply not_true_is_false. intros Hall. rewrite forallb_forall in Hall.
  specialize (Hall (start + Z.of_nat (length ids) - 1)).
  unfold in_integer_range in Hall. rewrite andb_true_iff, !Z.leb_le in Hall.
  assert (start + Z.of_nat (length ids) - 1 ≤ INT_MAX) as Hle; [|lia].
  apply Hall. apply list_elem_of_In, elem_of_seqZ. lia.
Qed.

Lemma migration_overflows_witness :
  Migration.exec_all Migration.migration (Migration.legacy (Some 2147483647) ["o-1"; "o-2"])
  = Throw "integer out of range".
Proof.
  apply migration_overflows; [vm_compute; reflexivity | cbn; lia].
Defined.

(** On a table that has a row, making the column mandatory before the
    backfill cannot go through, whatever the sequence. *)
Theorem not_null_needs_the_backfill (seq0 : option Z) (ids : list string) :
  (1 ≤ length ids)%nat →
  Migration.exec_all
    [Migration.CREATE_SEQUENCE; Migration.ADD_COLUMN; Migration.SET_NOT_NULL]
    (Migration.legacy seq0 ids)
  = Throw ("column " ++ quoted "order_number" ++ " of relation " ++ quoted "orders"
           ++ " contains null values").
Proof.
  intros Hlen. destruct ids as [|i ids]; [cbn in Hlen; lia|].
  cbn [Migration.exec_all Migration.exec Migration.legacy Migration.sequence
       Migration.has_column Migration.not_null Migration.unique_index
       Migration.default_nextval Migration.rows negb].
  rewrite bool_decide_eq_true_2; [reflexivity|]. cbn. apply list_elem_of_here.
Qed.

Lemma not_null_needs_the_backfill_witness :
  Migration.exec_all
    [Migration.CREATE_SEQUENCE; Migration.ADD_COLUMN; Migration.SET_NOT_NULL]
    (Migration.legacy (Some 5) ["o-1"; "o-2"])
  = Throw ("column " ++ quoted "order_number" ++ " of relation " ++ quoted "orders"
           ++ " contains null values").
Proof. apply not_null_needs_the_backfill. cbn. lia. Defined.

(** * The server and the migration runners *)

Example includes_examples :
  includes "https://exurydev--pr12-x.web.app" "exurydev--" = true
  ∧ includes "https://exury.io" "exury.io" = true
  ∧ includes "https://example.com" "exury.io" = false
  ∧ includes "abc" "" = true
  ∧ includes "" "a" = false
  ∧ already_applied "relation users already exists" = true
  ∧ already_applied "duplicate key value violates unique constraint" = true
  ∧ already_applied "syntax error at or near CREATE" = false.
Proof. repeat split. Qed.

(** Whatever the origin of a request, and also without one, the origin
    check allows it and reports no error: none of its lists is a
    restriction. *)
Theorem cors_allows_every_origin (origin : option string) :
  cors_origin origin = (None, true).
Proof. unfold cors_origin. repeat case_match; reflexivity. Qed.

(** ** [runMigrationsIfNeeded] *)

Lemma startup_loop_spec e files :
  ∃ rest,
    filter (λ f, existsSync e f = true) files = (startup_loop e files).1 ++ rest
    ∧ match (startup_loop e files).2 with
      | None => rest = [] ∧ Forall (λ f, run_sql e f = None) (startup_loop e files).1
      | Some m =>
          ∃ before f, (startup_loop e files).1 = before ++ [f]
                      ∧ Forall (λ f, run_sql e f = None) before
                      ∧ run_sql e f = Some m
      end.
Proof.
  induction files as [|file files (rest & Hfilter & Hcase)]; [exists []; by cbn|].
  cbn [startup_loop]. rewrite filter_cons.
  destruct (existsSync e file) eqn:Hex.
  - rewrite decide_True by reflexivity.
    destruct (run_sql e file) as [m|] eqn:Hrun.
    + exists (filter (λ f, existsSync e f = true) files). cbn. split; [reflexivity|].
      exists [], file. repeat split; [constructor | exact Hrun].
    + destruct (startup_loop e files) as [ran [m|]]; cbn in *.
      * exists rest. split; [by rewrite Hfilter|].
        destruct Hcase as (before & f & -> & Hbefore & Hf).
        exists (file :: before), f. repeat split; [by constructor | exact Hf].
      * exists rest. split; [by rewrite Hfilter|].
        destruct Hcase as [-> Hall]. split; [reflexivity|]. by constructor.
  - rewrite decide_False by discriminate.
    exists rest. by split.
Qed.

(** At startup: when the users table is there, or the check for it throws,
    no file is run.  Otherwise the files that are on disk are run in the
    order of the list, a file that is not on disk is passed over without a
    word, and the first file that fails is the last one run: every file run
    before it went through, and its error is the one reported. *)
Theorem startup_runs_until_first_failure (e : runner_env) :
  (table_check e ≠ Ok false → (runMigrationsIfNeeded e).1 = [])
  ∧ ∃ rest,
      filter (λ f, existsSync e f = true) migrationFiles
      = (runMigrationsIfNeeded e).1 ++ rest
      ∧ (table_check e = Ok false →
         match (runMigrationsIfNeeded e).2 with
         | None => rest = [] ∧ Forall (λ f, run_sql e f = None) (runMigrationsIfNeeded e).1
         | Some m =>
             ∃ before f, (runMigrationsIfNeeded e).1 = before ++ [f]
                         ∧ Forall (λ f, run_sql e f = None) before
                         ∧ run_sql e f = Some m
         end).
Proof.
  unfold runMigrationsIfNeeded. split.
  - destruct (table_check e) as [[|]|m]; try reflexivity. intros H. by destruct H.
  - destruct (table_check e) as [[|]|m]; cbn.
    + eexists. split; [reflexivity|]. discriminate.
    + destruct (startup_loop_spec e migrationFiles) as (rest & Hfilter & Hcase).
      exists rest. split; [exact Hfilter|]. intros _. exact Hcase.
    + eexists. split; [reflexivity|]. discriminate.
Qed.

(** ** The Node script *)

Lemma script_loop_spec e files :
  ((script_loop e files).2 = true ↔ Forall (passable e) files)
  ∧ ((script_loop e files).2 = true → (script_loop e files).1.*1 = files)
  ∧ (∀ f, (f, Completed) ∈ (script_loop e files).1 → run_sql e f = None)
  ∧ (∀ f, (f, AlreadyApplied) ∈ (script_loop e files).1 →
          ∃ m, run_sql e f = Some m ∧ already_applied m = true).
Proof.
  induction files as [|file files (IHiff & IHfiles & IHc & IHa)].
  { cbn. repeat split; try done; intros f Hf; by apply elem_of_nil in Hf. }
  cbn [script_loop]. destruct (existsSync e file) eqn:Hex; cbn [negb].
  2:{ cbn. repeat split; try done.
      - intros H. apply Forall_cons in H as [[H _] _]. congruence.
      - intros f Hf. by apply elem_of_nil in Hf.
      - intros f Hf. by apply elem_of_nil in Hf. }
  destruct (run_sql e file) as [m|] eqn:Hrun.
  - destruct (already_applied m) eqn:Hm.
    + destruct (script_loop e files) as [done through]; cbn in *. repeat split.
      * intros Ht. apply Forall_cons. split; [|by apply IHiff].
        split; [exact Hex|]. intros m' Hm'. congruence.
      * intros H. apply Forall_cons in H as [_ H]. by apply IHiff.
      * intros Ht. f_equal. by apply IHfiles.
      * intros f Hf. apply elem_of_cons in Hf as [[=]|Hf]. by apply IHc.
      * intros f Hf. apply elem_of_cons in Hf as [[= ->]|Hf]; [eauto|by apply IHa].
    + cbn. repeat split; try done.
      * intros H. apply Forall_cons in H as [[_ H] _]. specialize (H m Hrun). congruence.
      * intros f Hf. by apply elem_of_nil in Hf.
      * intros f Hf. by apply elem_of_nil in Hf.
  - destruct (script_loop e files) as [done through]; cbn in *. repeat split.
    + intros Ht. apply Forall_cons. split; [|by apply IHiff].
      split; [exact Hex|]. intros m' Hm'. congruence.
    + intros H. apply Forall_cons in H as [_ H]. by apply IHiff.
    + intros Ht. f_equal. by apply IHfiles.
    + intros f Hf. apply elem_of_cons in Hf as [[= ->]|Hf]; [exact Hrun|by apply IHc].
    + intros f Hf. apply elem_of_cons in Hf as [[=]|Hf]. by apply IHa.
Qed.

(** The Node script exits with 0 exactly when [DATABASE_URL] is set, the
    connection test and the final listing go through, and each of the three
    files is on disk and either runs or fails with a message that contains
    "already exists" or "duplicate".  Then all three files were dealt with,
    in order, each marked by whether it ran or was taken as applied; and
    the pool is closed exactly on that path. *)
Theorem node_script_exit_code (DATABASE_URL : option string) (e : runner_env) :
  (exit_code (runMigrations DATABASE_URL e) = 0%nat
   ↔ truthy_opt DATABASE_URL = true ∧ connection_test e = None
     ∧ Forall (passable e) migrationFiles ∧ is_Ok (list_tables e) = true)
  ∧ (pool_ended (runMigrations DATABASE_URL e) = true
     ↔ exit_code (runMigrations DATABASE_URL e) = 0%nat)
  ∧ (exit_code (runMigrations DATABASE_URL e) = 0%nat →
     (dealt_with (runMigrations DATABASE_URL e)).*1 = migrationFiles)
  ∧ (∀ f, (f, Completed) ∈ dealt_with (runMigrations DATABASE_URL e) → run_sql e f = None)
  ∧ (∀ f, (f, AlreadyApplied) ∈ dealt_with (runMigrations DATABASE_URL e) →
          ∃ m, run_sql e f = Some m ∧ already_applied m = true).
Proof.
  destruct (script_loop_spec e migrationFiles) as (Hiff & Hfiles & Hc & Ha).
  unfold runMigrations.
  destruct (truthy_opt DATABASE_URL); cbn [negb].
  2:{ cbn. repeat split; try done; try (intros (? & _); done);
        intros f Hf; by apply elem_of_nil in Hf. }
  destruct (connection_test e) as [m|].
  { cbn. repeat split; try done; try (intros (_ & ? & _); done);
      intros f Hf; by apply elem_of_nil in Hf. }
  destruct (script_loop e migrationFiles) as [done through]; cbn [fst snd] in *.
  destruct through; cbn [negb].
  - destruct (list_tables e) as [ts|m]; cbn.
    + repeat split; try done; try (by apply Hiff); try (intros _; by apply Hfiles).
    + repeat split; try done. intros (_ & _ & _ & ?). done.
  - cbn. repeat split; try done.
    intros (_ & _ & H & _). apply Hiff in H. done.
Qed.

(** ** The shell script *)

(** The shell script exits with 0 exactly when [DATABASE_URL] is not empty
    and [psql] exits with 0 on each of the three files; it runs [psql] on
    the files in order and on no file after one on which [psql] failed; and
    with an empty [DATABASE_URL] it runs nothing. *)
Theorem shell_script_stops_at_first_failure (DATABASE_URL : string) (psql : string → nat) :
  ((run_migrations_sh DATABASE_URL psql).2 = 0%nat
   ↔ DATABASE_URL ≠ "" ∧ Forall (λ f, psql f = 0%nat) sh_files)
  ∧ ((run_migrations_sh DATABASE_URL psql).2 = 0%nat
     ∨ (run_migrations_sh DATABASE_URL psql).2 = 1%nat)
  ∧ (run_migrations_sh DATABASE_URL psql).1 `prefix_of` sh_files
  ∧ (∀ i f, (run_migrations_sh DATABASE_URL psql).1 !! i = Some f →
            (S i < length (run_migrations_sh DATABASE_URL psql).1)%nat → psql f = 0%nat)
  ∧ (DATABASE_URL = "" → (run_migrations_sh DATABASE_URL psql).1 = []).
Proof.
  unfold run_migrations_sh, sh_files.
  destruct (String.eqb_spec DATABASE_URL "") as [->|Hurl].
  { cbn. repeat split; try done; try (by right); try (intros [? _]; done).
    - apply prefix_nil. }
  destruct (Nat.eqb_spec (psql "migrations/001_initial_schema.sql") 0) as [H1|H1]; cbn [negb].
  2:{ repeat split; try done; try (by right).
      - intros [_ H]. apply Forall_cons in H as [H _]. done.
      - by exists ["migrations/002_add_email_verification.sql";
                   "migrations/003_add_apple_facebook_ids.sql"].
      - intros [|[|i]] f Hf Hlt; cbn in *; lia. }
  destruct (Nat.eqb_spec (psql "migrations/002_add_email_verification.sql") 0) as [H2|H2];
    cbn [negb].
  2:{ repeat split; try done; try (by right).
      - intros [_ H]. apply Forall_cons in H as [_ H]. apply Forall_cons in H as [H _]. done.
      - by exists ["migrations/003_add_apple_facebook_ids.sql"].
      - intros [|[|i]] f Hf Hlt; cbn in *; simplify_eq; try done; lia. }
  destruct (Nat.eqb_spec (psql "migrations/003_add_apple_facebook_ids.sql") 0) as [H3|H3];
    cbn [negb].
  2:{ repeat split; try done; try (by right).
      - intros [_ H]. do 2 (apply Forall_cons in H as [_ H]). apply Forall_cons in H as [H _].
        done.
      - intros [|[|[|i]]] f Hf Hlt; cbn in *; simplify_eq; try done; lia. }
  repeat split; try done; try (by left).
  - repeat constructor; assumption.
  - intros [|[|[|i]]] f Hf Hlt; cbn in *; simplify_eq; try done; lia.
Qed.




(** [psql] with [ON_ERROR_STOP] set would stop the script at the first file
    with a failing statement; and on a database that is migrated already,
    where each file fails as something that exists, the script as it is and
    the Node script both exit with 0. *)
Example runners_on_a_migrated_database :
  run_migrations_sh "postgres://db" (λ file, psql_status true (PsqlRun true true true))
  = (["migrations/001_initial_schema.sql"], 1%nat)
  ∧ run_migrations_sh "postgres://db" (psql_f (λ _, PsqlRun true true true)) = (sh_files, 0%nat)
  ∧ exit_code (runMigrations (Some "postgres://db")
                 (RunnerEnv (Ok true) None (λ _, true)
                            (λ _, Some ("relation " ++ quoted "users" ++ " already exists")%string)
                            (Ok ["orders"; "users"]))) = 0%nat.
Proof. repeat split. Qed.

(** * Further properties of [createOrder] *)

Lemma resolve_userId_in_transaction e req w :
  in_transaction (resolve_userId e req w).2 = in_transaction w.
Proof.
  unfold resolve_userId. destruct (truthy_opt (user req)); [reflexivity|].
  unfold getOrCreateAnonymousUserId.
  destruct (truthy_opt (cachedAnonymousUserId w)) eqn:Ht.
  - destruct (cachedAnonymousUserId w) as [id|] eqn:Hid; [|discriminate].
    by rewrite (resolve_cached _ w id Hid Ht).
  - rewrite (resolve_uncached _ w Ht). unfold anon_query, pool_query.
    destruct (q_link (anon e)); cbn; [| reflexivity |];
      destruct (anon_upsert (q_uuid (anon e)) (db w)) as [[[|? ?]|?] ?]; reflexivity.
Qed.

(** [client] goes back to the pool inside a transaction in one case only:
    [BEGIN] went through and then [ROLLBACK] threw in the catch block. *)
Theorem client_returned_outside_transaction (e : env) (req : request) (w : world) :
  in_transaction w = false →
  in_transaction (createOrder e req w).2 = true →
  begin_throws e = None ∧ rollback_throws e ≠ None.
Proof.
  intros Hw.
  pose proof (resolve_userId_in_transaction e req (set_checked_out (S (checked_out w)) w)) as Hr.
  cbn in Hr. rewrite Hw in Hr. revert Hr.
  createOrder_cases e req w; cbn; intros; simplify_eq; try congruence;
    try (split; congruence).
  all: unfold orderRepository_create, pool_query in *;
    destruct (create_link e); cbn in *; simplify_eq;
    try match goal with H : context [insert_order ?n ?f ?s] |- _ =>
      destruct (insert_order n f s) end; simplify_eq; cbn in *; congruence.
Qed.

Lemma client_returned_outside_transaction_witness :
  begin_throws (with_rollback_throws (Some "Connection terminated unexpectedly") calm) = None.
Proof.
  set (e := with_rollback_throws (Some "Connection terminated unexpectedly") calm).
  set (w := (createOrder calm (alice_orders (Some "q-1")) (boot empty_store)).2).
  assert (in_transaction w = false) as H1 by reflexivity.
  assert (in_transaction (createOrder e (alice_orders (Some "q-1")) w).2 = true) as H2
    by (vm_compute; reflexivity).
  exact (proj1 (client_returned_outside_transaction e (alice_orders (Some "q-1")) w H1 H2)).
Defined.

(** The case itself: the insert fails on a key that is taken, [ROLLBACK]
    throws, and [client] is given back to the pool with its transaction
    open. *)
Example client_released_inside_transaction :
  let w := (createOrder calm (alice_orders (Some "q-1")) (boot empty_store)).2 in
  let r := createOrder (with_rollback_throws (Some "Connection terminated unexpectedly") calm)
             (alice_orders (Some "q-1")) w in
  answer r = None ∧ in_transaction r.2 = true ∧ checked_out r.2 = 0%nat.
Proof. vm_compute. auto. Qed.

(** [createOrder] changes the orders table only for a request that has a
    [quote_id], whose quote the pricing service has validated and handed
    over, and after [BEGIN] went through. *)
Theorem order_written_only_for_valid_quote (e : env) (req : request) (w : world) :
  orders (db (createOrder e req w).2) ≠ orders (db w) →
  truthy_opt (quote_id req) = true
  ∧ validateQuote e = Ok true
  ∧ (∃ q, getQuote e = Ok (Some q))
  ∧ begin_throws e = None.
Proof.
  pose proof (resolve_userId_same_orders e req (set_checked_out (S (checked_out w)) w)) as Hsame.
  revert Hsame.
  createOrder_cases e req w; cbn; intros Hsame Hneq; simplify_eq; try (by destruct Hneq);
    eauto.
Qed.

Lemma order_written_only_for_valid_quote_witness :
  validateQuote calm = Ok true ∧ begin_throws calm = None.
Proof.
  assert (orders (db (createOrder calm (alice_orders (Some "q-1")) (boot empty_store)).2)
          ≠ orders (db (boot empty_store))) as H by (vm_compute; discriminate).
  destruct (order_written_only_for_valid_quote _ _ _ H) as (_ & Hv & _ & Hb).
  split; [exact Hv | exact Hb].
Defined.

Lemma served_order_numbers_distinct_witness :
  NoDup (order_numbers (orders (db
    (serve_all [CreateOrder calm (alice_orders (Some "q-1"));
                CreateOrder calm (alice_orders (Some "q-1"));
                GetOrder quote_gone (alice_orders None);
                CreateOrder other_quote (anonymous_orders (Some "q-2"))]
               (boot empty_store))))).
Proof. apply served_order_numbers_distinct. apply NoDup_nil_2. Defined.
